(** * Ranking evaluation of src/predict.py

    A shallow embedding of [src/predict.py]: the evaluation part of [main]
    (from the accumulator initialisation to the write of the results
    file), the tensors it manipulates and the two metric functions it
    imports from [util]; the accumulators once more in any arithmetic,
    to tell exact sums from binary64 ones; the file copies [save_local]
    and [save_remote], the paths [main] builds and the files it stages;
    and the script that sends a mail once [main] is done. *)

From Stdlib Require Import Reals Lra Lia QArith ZArith Ascii String.
From Stdlib Require Import Floats.PrimFloat Numbers.Cyclic.Int63.Uint63.
From stdpp Require Import base option list sorting gmap strings.

Close Scope Q_scope.
Close Scope R_scope.
Open Scope Z_scope.
Open Scope nat_scope.

(** ** Scores

    An entry of the score tensor is an IEEE value.  Only its order matters
    to the evaluation, so a finite value is kept as the rational it
    denotes. *)

Inductive score : Type :=
  | NaN
  | NegInf
  | Fin (x : Q)
  | PosInf.

Definition Qltb (x y : Q) : bool := negb (Qle_bool y x).

(** [a > b] as the floating-point comparison decides it: false as soon as
    one side is NaN. *)
Definition score_gt (a b : score) : bool :=
  match a, b with
  | NaN, _ | _, NaN => false
  | NegInf, _ => false
  | _, PosInf => false
  | Fin x, Fin y => Qltb y x
  | Fin _, NegInf => true
  | PosInf, _ => true
  end.

(** ** Tensors *)

Abbreviation tensor A := (list (list A)).

(** [train_mat > 0] *)
Definition tensor_gt0 (t : tensor Z) : tensor bool :=
  (fun row : list Z => (fun x => (0 <? x)%Z) <$> row) <$> t.

(** The shape of a two-dimensional tensor: the length of each row. *)
Definition shape {A} (t : tensor A) : list nat := length <$> t.

(** One row of [dst[mask] = v]. A mask whose length differs from the row's
    raises. *)
Fixpoint index_put_row {A} (v : A) (dst : list A) (mask : list bool)
  : option (list A) :=
  match dst, mask with
  | [], [] => Some []
  | x :: dst', b :: mask' =>
      r ← index_put_row v dst' mask'; Some ((if b then v else x) :: r)
  | _, _ => None
  end.

(** [dst[mask] = v] on two-dimensional tensors: the shapes have to agree,
    otherwise the assignment raises (here: [None]). *)
Fixpoint index_put {A} (v : A) (dst : tensor A) (mask : tensor bool)
  : option (tensor A) :=
  match dst, mask with
  | [], [] => Some []
  | r :: dst', m :: mask' =>
      r' ← index_put_row v r m;
      rest ← index_put v dst' mask';
      Some (r' :: rest)
  | _, _ => None
  end.

(** ** The metric functions of [util]

    [predict.py] imports [Recall_at_k] and [NDCG_at_k] from [util], whose
    source is not part of the files at hand. *)

Module util.

(** Modelled from the spec: the order behind the RankedList of [util]
    (missing: libs/util.py).  "Items sorted descending by ScoreVector,
    ties broken by item id ascending."  The spec orders NaN nowhere; here
    it ranks below every other value, so that the order is total. *)
Definition rank_lt (a b : score) : bool :=
  match a, b with
  | _, NaN => false
  | NaN, _ => true
  | _, NegInf => false
  | NegInf, _ => true
  | Fin x, Fin y => Qltb x y
  | Fin _, PosInf => true
  | PosInf, _ => false
  end.

Definition score_at (s : list score) (i : nat) : score := default NaN (s !! i).

(** Modelled from the spec: item [i] is ranked no later than item [j]
    (missing: libs/util.py): higher score first, lower id first among
    equal scores. *)
Definition before (s : list score) (i j : nat) : bool :=
  rank_lt (score_at s j) (score_at s i)
  || (negb (rank_lt (score_at s i) (score_at s j)) && (i <=? j)).

Fixpoint insert_by (le : nat -> nat -> bool) (i : nat) (l : list nat)
  : list nat :=
  match l with
  | [] => [i]
  | j :: l' => if le i j then i :: l else j :: insert_by le i l'
  end.

(** Modelled from the spec: the RankedList of one user (missing:
    libs/util.py): all item ids, sorted by [before]. *)
Definition ranked_list (s : list score) : list nat :=
  foldr (insert_by (before s)) [] (seq 0 (length s)).

(** Modelled from the spec: "select the K items with highest score (ties
    broken by lower item id) - this is the RankedList's prefix of length
    K" (missing: libs/util.py). *)
Definition top_k (s : list score) (k : nat) : list nat :=
  take k (ranked_list s).

(** [test_row[item] > 0] *)
Definition relevant (t : list Z) (i : nat) : bool :=
  (0 <? default 0%Z (t !! i))%Z.

Definition num_hits (t : list Z) (l : list nat) : nat :=
  length (filter (fun i => relevant t i = true) l).

Definition num_positives (t : list Z) : nat :=
  length (filter (fun x => (0 < x)%Z) t).

(** Modelled from the spec: Recall@K of one user (missing: libs/util.py):
    hits in the top-K list over the number of positive test entries, and 0
    for a user with no positive test entry. *)
Definition recall_user (t : list Z) (s : list score) (k : nat) : R :=
  if num_positives t =? 0 then 0%R
  else (INR (num_hits t (top_k s k)) / INR (num_positives t))%R.

Definition log2 (x : R) : R := (ln x / ln 2)%R.

(** The gain of the item at rank position [pos] (counted from 1). *)
Definition gain (t : list Z) (pos i : nat) : R :=
  ((if relevant t i then 1 else 0) / log2 (INR pos + 1))%R.

Fixpoint dcg_from (t : list Z) (pos : nat) (l : list nat) : R :=
  match l with
  | [] => 0%R
  | i :: l' => (gain t pos i + dcg_from t (S pos) l')%R
  end.

(** Modelled from the spec: DCG@K (missing: libs/util.py), the sum over
    the rank positions [1..K] of [(test_row[item_i] > 0 ? 1 : 0) /
    log2(i + 1)]. *)
Definition DCG (t : list Z) (s : list score) (k : nat) : R :=
  dcg_from t 1 (top_k s k).

Fixpoint ideal_from (pos n : nat) : R :=
  match n with
  | 0 => 0%R
  | S n' => (1 / log2 (INR pos + 1) + ideal_from (S pos) n')%R
  end.

(** Modelled from the spec: IDCG@K (missing: libs/util.py), the DCG of the
    ideal ordering: "all true positives ranked first, up to min(K, number
    of true positives)". *)
Definition IDCG (t : list Z) (k : nat) : R :=
  ideal_from 1 (Nat.min k (num_positives t)).

(** Modelled from the spec: NDCG@K of one user (missing: libs/util.py):
    DCG@K / IDCG@K, and 0 when IDCG@K is 0. *)
Definition ndcg_user (t : list Z) (s : list score) (k : nat) : R :=
  if Req_dec_T (IDCG t k) 0 then 0%R else (DCG t s k / IDCG t k)%R.

Definition sum_R (l : list R) : R := foldr Rplus 0%R l.

(** Modelled from the spec: the per-user aggregation mode of the two
    metric functions (missing: libs/util.py): one value per row of the
    batch. *)
Definition Recall_per_user (target : tensor Z) (scores : tensor score) (k : nat)
  : list R :=
  zip_with (fun t s => recall_user t s k) target scores.

Definition NDCG_per_user (target : tensor Z) (scores : tensor score) (k : nat)
  : list R :=
  zip_with (fun t s => ndcg_user t s k) target scores.

(** Modelled from the spec: [Recall_at_k(y_true, y_pred, k, agg="sum")]
    (missing: libs/util.py): the sum over the users of the batch.  Every
    call of [predict.py] passes [agg="sum"]. *)
Definition Recall_at_k (target : tensor Z) (scores : tensor score) (k : nat) : R :=
  sum_R (Recall_per_user target scores k).

(** Modelled from the spec: [NDCG_at_k(y_true, y_pred, k, agg="sum")]
    (missing: libs/util.py). *)
Definition NDCG_at_k (target : tensor Z) (scores : tensor score) (k : nat) : R :=
  sum_R (NDCG_per_user target scores k).

End util.

(** ** The world [main] runs in

    The score tensors live in a store, so that the object the model
    returns and the variable [item_scores] that is later indexed are one
    and the same; next to it, the console and the files written. *)

Inductive console_line : Type :=
  | PrintValue (label : string) (v : R)   (* print(label, v) *)
  | PrintText (s : string).               (* print(s) *)

Record world : Type := World {
  heap : gmap nat (tensor score);
  console : list console_line;
  files : gmap string string
}.

(** A computation either returns or raises; what it did to the world
    before raising stays done. *)
Definition M (A : Type) : Type := world -> option A * world.

#[global] Instance M_ret : MRet M := fun A a w => (Some a, w).
#[global] Instance M_bind : MBind M := fun A B f m w =>
  match m w with
  | (Some a, w') => f a w'
  | (None, w') => (None, w')
  end.

Definition raise {A} : M A := fun w => (None, w).

Definition lift_option {A} (o : option A) : M A :=
  match o with Some a => mret a | None => raise end.

(** A new tensor object. *)
Definition alloc (t : tensor score) : M nat := fun w =>
  let l := fresh (dom (heap w)) in
  (Some l, World (<[l := t]> (heap w)) (console w) (files w)).

(** [obj[mask] = v], on the object itself. *)
Definition index_put_ (l : nat) (mask : tensor bool) (v : score) : M unit := fun w =>
  match heap w !! l with
  | Some t =>
      match index_put v t mask with
      | Some t' => (Some tt, World (<[l := t']> (heap w)) (console w) (files w))
      | None => (None, w)
      end
  | None => (None, w)
  end.

(** [obj.cpu().numpy()]: a copy of the object's current content. *)
Definition to_numpy (l : nat) : M (tensor score) := fun w =>
  (heap w !! l, w).

Definition print (c : console_line) : M unit := fun w =>
  (Some tt, World (heap w) (console w ++ [c]) (files w)).

(** The file system the program runs on, as far as [fsspec.open] meets
    it: the file a path names (the path taken from the working directory,
    with its "." and ".." components and symbolic links followed), and
    whether a path can be opened for writing (not for a directory, a
    read-only location, a missing parent directory).  Both stay fixed
    during a run.  The files of [world] are kept under the names
    [resolve] gives, so that two paths to one file meet in one entry. *)
Record file_system : Type := FileSystem {
  resolve : string -> string;
  can_write : string -> bool
}.

(** [with fsspec.open(path, "w") as f: f.write(a); f.write(b)].  Where
    the path cannot be opened for writing, [fsspec.open] raises and the
    file is left as it was; a file that is open takes the two writes. *)
Definition write_file (fs : file_system) (path a b : string)
  : M unit := fun w =>
  if can_write fs path
  then (Some tt,
        World (heap w) (console w) (<[resolve fs path := a +:+ b]> (files w)))
  else (None, w).

(** ** Formatting with [:.4f] *)

Definition newline : string := String "010"%char "".

Definition digit_char (d : nat) : ascii :=
  ascii_of_nat (48 + d mod 10).

Fixpoint digits_fuel (fuel n : nat) (acc : string) : string :=
  match fuel with
  | 0 => acc
  | S fuel' =>
      let acc' := String (digit_char n) acc in
      if n / 10 =? 0 then acc' else digits_fuel fuel' (n / 10) acc'
  end.

(** The decimal numeral of a natural number. *)
Definition string_of_nat (n : nat) : string := digits_fuel (S n) n "".

(** Rounding to the nearest integer, ties to the even one. *)
Definition round_half_even (x : R) : Z :=
  let f := Zfloor x in
  if Rlt_dec (x - IZR f) (1 / 2) then f
  else if Rlt_dec (1 / 2) (x - IZR f) then (f + 1)%Z
  else if Z.even f then f else (f + 1)%Z.

(** [f"{x:.4f}"] *)
Definition format_4f (x : R) : string :=
  let z := round_half_even (Rabs x * 10000) in
  (if Rlt_dec x 0 then "-" else "")
  +:+ string_of_nat (Z.to_nat (z / 10000))
  +:+ "."
  +:+ String (digit_char (Z.to_nat (z / 1000 mod 10)))
       (String (digit_char (Z.to_nat (z / 100 mod 10)))
         (String (digit_char (Z.to_nat (z / 10 mod 10)))
           (String (digit_char (Z.to_nat (z mod 10))) ""))).

(** Reading a numeral back. *)
Definition is_digit (c : ascii) : bool :=
  (48 <=? nat_of_ascii c) && (nat_of_ascii c <=? 57).

Fixpoint all_digits (s : string) : bool :=
  match s with
  | EmptyString => true
  | String c s' => is_digit c && all_digits s'
  end.

Fixpoint digits_value (a : nat) (s : string) : nat :=
  match s with
  | EmptyString => a
  | String c s' => digits_value (10 * a + (nat_of_ascii c - 48)) s'
  end.

(** [s] is the fixed-point numeral of [x] with four decimals: a minus sign
    when [x] is negative, at least one integer digit, a point, four
    decimal digits, together the multiple of 1/10000 nearest to [|x|]. *)
Definition fixed_point_4 (x : R) (s : string) : Prop :=
  exists int frac : string,
    s = (if Rlt_dec x 0 then "-" else "") +:+ int +:+ "." +:+ frac
    /\ int <> EmptyString
    /\ all_digits int = true
    /\ all_digits frac = true
    /\ String.length frac = 4
    /\ (Rabs (INR (digits_value 0 int) + INR (digits_value 0 frac) / 10000 - Rabs x)
        <= 1 / 20000)%R.

(** ** The batches *)

Record batch : Type := Batch {
  input_ids : tensor nat;
  train_mat : tensor Z;
  target_mat : tensor Z;
  attention_mask : tensor nat
}.

(** Modelled from the spec: one element of the test generator (missing:
    libs/data.py).  For each user: the token sequence, the attention mask,
    the train row and the test row. *)
Record sample : Type := Sample {
  sample_ids : list nat;
  sample_train : list Z;
  sample_target : list Z;
  sample_mask : list nat
}.

(** Modelled from the spec: [collate_fn] of the test generator (missing:
    libs/data.py): "all four outputs for a batch must align positionally
    with the input user-id ordering". *)
Definition collate_fn (l : list sample) : batch :=
  Batch (sample_ids <$> l) (sample_train <$> l)
        (sample_target <$> l) (sample_mask <$> l).

Fixpoint chunks_fuel {A} (fuel n : nat) (l : list A) : list (list A) :=
  match fuel with
  | 0 => []
  | S fuel' =>
      match l with
      | [] => []
      | _ => take n l :: chunks_fuel fuel' n (drop n l)
      end
  end.

(** [DataLoader(dataset, batch_size, collate_fn)]: the samples in order,
    [batch_size] at a time, the last batch shorter when they do not divide
    evenly. *)
Definition DataLoader (dataset : list sample) (batch_size : nat) : list batch :=
  collate_fn <$> chunks_fuel (length dataset) batch_size dataset.

(** [os.path.join(a, b)] *)
Definition os_path_join (a b : string) : string :=
  match b with
  | String "/" _ => b
  | _ =>
      if decide (a = "") then b
      else match get (String.length a - 1) a with
           | Some "/"%char => a +:+ b
           | _ => a +:+ "/" +:+ b
           end
  end.

(** ** [main], from the accumulators on *)

Record metrics : Type := Metrics {
  cur_recall_1 : R;
  cur_recall_5 : R;
  cur_recall_10 : R;
  cur_NDCG_5 : R;
  cur_NDCG_10 : R
}.

(** Lines 287-291: the five [+=] on the accumulators.  The numbers are
    real numbers here: the additions and the division of [main] are taken
    as exact.  What depends on the rounding of binary64 is stated on
    [accumulator_run] and [float_accumulator_run] below. *)
Definition accumulate (acc : metrics) (target : tensor Z) (scores : tensor score)
  : metrics :=
  Metrics
    (cur_recall_1 acc + util.Recall_at_k target scores 1)
    (cur_recall_5 acc + util.Recall_at_k target scores 5)
    (cur_recall_10 acc + util.Recall_at_k target scores 10)
    (cur_NDCG_5 acc + util.NDCG_at_k target scores 5)
    (cur_NDCG_10 acc + util.NDCG_at_k target scores 10).

Section Driver.

(** The loss the model returns next to the scores; [main] ignores it. *)
Variable loss : Type.

(** [rec_model(input_ids, target_mat, attention_mask)], an opaque call
    that returns [(rec_loss, item_scores)] or raises. *)
Variable rec_model :
  tensor nat -> tensor Z -> tensor nat -> option (loss * tensor score).

(** The file system the results file is written to. *)
Variable fs : file_system.

(** The body of the [for] loop. *)
Definition batch_step (b : batch) (acc : metrics) : M metrics :=
  (* rec_loss, item_scores = rec_model(input_ids, target_mat, attention_mask) *)
  '(rec_loss, out) ← lift_option
     (rec_model (input_ids b) (target_mat b) (attention_mask b));
  item_scores ← alloc out;
  (* item_scores[train_mat > 0] = -float("inf") *)
  _ ← index_put_ item_scores (tensor_gt0 (train_mat b)) NegInf;
  (* item_scores = item_scores.cpu().numpy() *)
  scores ← to_numpy item_scores;
  (* cur_recall_1 += Recall_at_k(target_mat, item_scores, k=1, agg="sum") ... *)
  mret (accumulate acc (target_mat b) scores).

(** [for ... in test_data_loader: ...] *)
Fixpoint eval_loop (loader : list batch) (acc : metrics) : M metrics :=
  match loader with
  | [] => mret acc
  | b :: rest => acc' ← batch_step b acc; eval_loop rest acc'
  end.

(** Lines 261-312 of [main], for a loader and a value of
    [len(test_data_gen)]; [start] and [end_] are what the two calls of
    [time.time()] return.  The result is the final value of the five
    accumulators. *)
Definition evaluate (results_path : string) (loader : list batch) (len : nat)
    (start end_ : R) : M metrics :=
  acc ← eval_loop loader (Metrics 0 0 0 0 0);
  (* a division by len(test_data_gen) = 0 raises ZeroDivisionError *)
  _ ← (if len =? 0 then raise else mret tt);
  _ ← print (PrintValue "Inference Time:" ((start - end_) / INR len));
  let r1 := (cur_recall_1 acc / INR len)%R in
  let r5 := (cur_recall_5 acc / INR len)%R in
  let r10 := (cur_recall_10 acc / INR len)%R in
  let n5 := (cur_NDCG_5 acc / INR len)%R in
  let n10 := (cur_NDCG_10 acc / INR len)%R in
  _ ← print (PrintText "Final Testing Results:");
  _ ← print (PrintText ("Recall@1: " +:+ format_4f r1));
  _ ← print (PrintText ("Recall@5: " +:+ format_4f r5));
  _ ← print (PrintText ("Recall@10: " +:+ format_4f r10));
  _ ← print (PrintText ("NDCG@5: " +:+ format_4f n5));
  _ ← print (PrintText ("NDCG@10: " +:+ format_4f n10));
  _ ← write_file fs results_path
        ("Recall@1,Recall@5,Recall@10,NDCG@5,NDCG@10" +:+ newline)
        (format_4f r1 +:+ "," +:+ format_4f r5 +:+ "," +:+ format_4f r10
         +:+ "," +:+ format_4f n5 +:+ "," +:+ format_4f n10);
  mret (Metrics r1 r5 r10 n5 n10).

Definition results_path (dataset lambda_V : string) : string :=
  os_path_join (os_path_join "/datain/v-yinju/rqvae-zzx/data/CLLM4Rec" dataset)
               ("results_" +:+ lambda_V +:+ ".txt").


(** What [batch_step] hands to the metric functions, as a function of
    the batch. *)
Definition masked_scores (b : batch) : option (tensor score) :=
  '(_, out) ← rec_model (input_ids b) (target_mat b) (attention_mask b);
  index_put NegInf out (tensor_gt0 (train_mat b)).

End Driver.

Definition empty_world : world := World ∅ [] ∅.

(** ** Arithmetic on the five metrics, to state what a run computes *)

Definition batch_metrics (target : tensor Z) (scores : tensor score) : metrics :=
  Metrics
    (util.Recall_at_k target scores 1)
    (util.Recall_at_k target scores 5)
    (util.Recall_at_k target scores 10)
    (util.NDCG_at_k target scores 5)
    (util.NDCG_at_k target scores 10).

Definition metrics_add (a b : metrics) : metrics :=
  Metrics
    (cur_recall_1 a + cur_recall_1 b)
    (cur_recall_5 a + cur_recall_5 b)
    (cur_recall_10 a + cur_recall_10 b)
    (cur_NDCG_5 a + cur_NDCG_5 b)
    (cur_NDCG_10 a + cur_NDCG_10 b).

Definition metrics_div (a : metrics) (n : nat) : metrics :=
  Metrics
    (cur_recall_1 a / INR n)
    (cur_recall_5 a / INR n)
    (cur_recall_10 a / INR n)
    (cur_NDCG_5 a / INR n)
    (cur_NDCG_10 a / INR n).

Definition metrics_sum (l : list metrics) : metrics :=
  foldr metrics_add (Metrics 0 0 0 0 0) l.

(** What a run that returns has added to the console and put into the
    results file, for the final metrics [res]. *)
Definition report_console (res : metrics) (start end_ : R) (len : nat)
  : list console_line :=
  [PrintValue "Inference Time:" ((start - end_) / INR len);
   PrintText "Final Testing Results:";
   PrintText ("Recall@1: " +:+ format_4f (cur_recall_1 res));
   PrintText ("Recall@5: " +:+ format_4f (cur_recall_5 res));
   PrintText ("Recall@10: " +:+ format_4f (cur_recall_10 res));
   PrintText ("NDCG@5: " +:+ format_4f (cur_NDCG_5 res));
   PrintText ("NDCG@10: " +:+ format_4f (cur_NDCG_10 res))].

Definition report_text (res : metrics) : string :=
  ("Recall@1,Recall@5,Recall@10,NDCG@5,NDCG@10" +:+ newline)
  +:+ (format_4f (cur_recall_1 res) +:+ "," +:+
       format_4f (cur_recall_5 res) +:+ "," +:+
       format_4f (cur_recall_10 res) +:+ "," +:+
       format_4f (cur_NDCG_5 res) +:+ "," +:+
       format_4f (cur_NDCG_10 res)).


(** ** One accumulator, in any arithmetic

    Each of the five accumulators of [main] is set to 0 (line 261-265),
    receives [+= metric(target_mat, item_scores, k, agg="sum")] once per
    batch (lines 287-291) and is divided by [len(test_data_gen)] after the
    loop (lines 295-299).  The numbers are IEEE floats in the program; the
    pattern is written here for any number type, to be read over the reals
    ([accumulate], [evaluate]) or over binary64. *)

Section Accumulator.

Context {num : Type}.
Variable zero : num.
Variable add : num -> num -> num.
Variable div_len : num -> nat -> num.

(** The metric of one user. *)
Variable user_metric : list Z -> list score -> num.

(** Modelled from the spec: the "sum" mode of a metric function (missing:
    libs/util.py): the users' values added up, first to last. *)
Definition metric_sum (target : tensor Z) (scores : tensor score) : num :=
  foldl add zero (zip_with user_metric target scores).

(** [cur = 0]; [for batch: cur += metric_sum(batch)]; [cur /= len]. *)
Definition accumulator_run (batches : list (tensor Z * tensor score))
    (len : nat) : num :=
  div_len (foldl (fun cur b => add cur (metric_sum b.1 b.2)) zero batches) len.

End Accumulator.

(** ** The accumulator in binary64 *)




(** The same accumulator over the reals. *)
Definition real_accumulator_run (user_metric : list Z -> list score -> R)
    (batches : list (tensor Z * tensor score)) (len : nat) : R :=
  accumulator_run 0%R Rplus (fun x n => (x / INR n)%R) user_metric batches len.

(** An accumulator over the reals after the loop, started at [x]. *)
Definition accumulated (user_metric : list Z -> list score -> R) (x : R)
    (batches : list (tensor Z * tensor score)) : R :=
  foldl (fun cur b => (cur + metric_sum 0%R Rplus user_metric b.1 b.2)%R)
        x batches.

(** ** Lines of a text *)

Definition line_feed : ascii := "010"%char.

(** The lines of a text: the pieces between line feeds. *)
Fixpoint split_lines_from (cur : string) (s : string) : list string :=
  match s with
  | EmptyString => [cur]
  | String c s' =>
      if Ascii.eqb c line_feed then cur :: split_lines_from "" s'
      else split_lines_from (cur +:+ String c "") s'
  end.

Definition split_lines (s : string) : list string := split_lines_from "" s.

Fixpoint no_line_feed (s : string) : bool :=
  match s with
  | EmptyString => true
  | String c s' => negb (Ascii.eqb c line_feed) && no_line_feed s'
  end.

(** ** Files: [save_local] and [save_remote]

    The files of [world], read and written through [fsspec.open] in one
    of the four modes [main] passes. *)

Inductive open_mode : Type :=
  | mode_r     (* "r" *)
  | mode_rb    (* "rb" *)
  | mode_w     (* "w" *)
  | mode_wb.   (* "wb" *)

(** What [f.read()] returns and [f.write(...)] is given: text or bytes. *)
Inductive payload : Type :=
  | Str (s : string)
  | Bytes (b : string).

(** An open file: the file it is and the mode it was opened in. *)
Record file_handle : Type := Handle {
  handle_file : string;
  handle_mode : open_mode
}.

Definition set_files (store : gmap string string) (w : world) : world :=
  World (heap w) (console w) store.

Section Files.

(** The text layer of a file opened in mode "r" or "w": decoding the bytes
    read (which raises on bytes that are no text) and encoding the text
    written.  Both belong to the Python runtime. *)
Variable decode : string -> option string.
Variable encode : string -> string.

(** The file system: which file a path names, and the paths at which
    opening for writing goes through; at the others (a directory, a
    read-only location, a missing parent directory) it raises. *)
Variable fs : file_system.

(** [fsspec.open(path, mode).__enter__()]: a read mode needs the file to
    exist; a write mode creates the file or empties it where the path can
    be written, and raises, leaving everything as it was, where it
    cannot. *)
Definition fs_open (path : string) (mode : open_mode) : M file_handle := fun w =>
  let file := resolve fs path in
  match mode with
  | mode_r | mode_rb =>
      match files w !! file with
      | Some _ => (Some (Handle file mode), w)
      | None => (None, w)
      end
  | mode_w | mode_wb =>
      if can_write fs path
      then (Some (Handle file mode), set_files (<[file := ""]> (files w)) w)
      else (None, w)
  end.

(** [f.read()]: the whole content, as text or as bytes; a file opened for
    writing is not readable. *)
Definition f_read (f : file_handle) : M payload := fun w =>
  match handle_mode f with
  | mode_rb => (Bytes <$> files w !! handle_file f, w)
  | mode_r => (c ← files w !! handle_file f; Str <$> decode c, w)
  | mode_w | mode_wb => (None, w)
  end.

(** [f.write(content)]: text to a text file, bytes to a binary file,
    anything else raises. *)
Definition f_write (f : file_handle) (content : payload) : M unit := fun w =>
  let old := default "" (files w !! handle_file f) in
  match handle_mode f, content with
  | mode_wb, Bytes b =>
      (Some tt, set_files (<[handle_file f := old +:+ b]> (files w)) w)
  | mode_w, Str s =>
      (Some tt, set_files (<[handle_file f := old +:+ encode s]> (files w)) w)
  | _, _ => (None, w)
  end.

(** Lines 43-51. *)
Definition save_local (remote_path local_path : string)
    (remote_mode local_mode : open_mode) : M unit :=
  (* with fsspec.open(remote_path, remote_mode) as f: content = f.read() *)
  f ← fs_open remote_path remote_mode;
  content ← f_read f;
  (* with fsspec.open(local_path, local_mode) as f: f.write(content) *)
  f ← fs_open local_path local_mode;
  f_write f content.

(** Lines 54-62. *)
Definition save_remote (local_path remote_path : string)
    (local_mode remote_mode : open_mode) : M unit :=
  (* with fsspec.open(local_path, local_mode) as f: content = f.read() *)
  f ← fs_open local_path local_mode;
  content ← f_read f;
  (* with fsspec.open(remote_path, remote_mode) as f: f.write(content) *)
  f ← fs_open remote_path remote_mode;
  f_write f content.

(** What a copy from the file [src] in mode [rm] to a file opened in
    mode [wm] writes, when it writes at all. *)
Definition copied (store : gmap string string) (src : string)
    (rm wm : open_mode) : option string :=
  match rm, wm with
  | mode_rb, mode_wb => store !! src
  | mode_r, mode_w => c ← store !! src; encode <$> decode c
  | _, _ => None
  end.

(** One [save_local] call: remote path, local path, the two modes. *)
Record staging_call : Type := Call {
  call_remote : string;
  call_local : string;
  call_remote_mode : open_mode;
  call_local_mode : open_mode
}.

(** What a call writes to its local path, read off the files it starts
    from. *)
Definition call_copied (store : gmap string string) (c : staging_call)
  : option string :=
  copied store (resolve fs (call_remote c))
    (call_remote_mode c) (call_local_mode c).

(** The files a call reads from and writes to. *)
Definition remote_file (c : staging_call) : string := resolve fs (call_remote c).
Definition local_file (c : staging_call) : string := resolve fs (call_local c).

(** Calls of [save_local], one after the other; the first one that raises
    ends the sequence. *)
Fixpoint stage (calls : list staging_call) : M unit :=
  match calls with
  | [] => mret tt
  | c :: rest =>
      _ ← save_local (call_remote c) (call_local c)
            (call_remote_mode c) (call_local_mode c);
      stage rest
  end.

End Files.

(** ** The paths of [main] *)

(** Lines 64-65. *)
Definition server_root : string := "/datain/v-yinju/rqvae-zzx/models/cllm4rec".
Definition local_root : string := "tmp".

(** Lines 126-127. *)
Definition data_root (dataset : string) : string :=
  os_path_join "/datain/v-yinju/rqvae-zzx/data/CLLM4Rec" dataset.
Definition meta_path (dataset : string) : string :=
  os_path_join (data_root dataset) "meta.pkl".

(** Lines 144-151. *)
Definition tokenizer_root : string := "/datain/v-yinju/gpt2".
Definition remote_vocab_file : string := os_path_join tokenizer_root "vocab.json".
Definition remote_merges_file : string := os_path_join tokenizer_root "merges.txt".
Definition vocab_file : string := os_path_join local_root "vocab.json".
Definition merges_file : string := os_path_join local_root "merges.txt".

(** Lines 168-174. *)
Definition remote_train_mat_path (dataset : string) : string :=
  os_path_join (data_root dataset) "train_matrix.npz".
Definition local_train_mat_path : string :=
  os_path_join local_root "train_matrix.npz".
Definition remote_test_mat_path (dataset : string) : string :=
  os_path_join (data_root dataset) "test_matrix.npz".
Definition local_test_mat_path : string :=
  os_path_join local_root "test_matrix.npz".

(** Lines 203-208. *)
Definition remote_pretrained_weights_path : string :=
  os_path_join "/datain/v-yinju/gpt2" "pytorch_model.bin".
Definition local_pretrained_weights_path : string :=
  os_path_join local_root "pytorch_model.bin".

(** Lines 222-226: [os.path.join(server_root, dataset, "rec")] and the
    four embedding paths. *)
Definition pretrained_root (dataset : string) : string :=
  os_path_join (os_path_join server_root dataset) "rec".
Definition remote_pretrained_user_emb_path (dataset lambda_V : string) : string :=
  os_path_join (pretrained_root dataset) ("user_embeddings_" +:+ lambda_V +:+ ".pt").
Definition remote_pretrained_item_emb_path (dataset lambda_V : string) : string :=
  os_path_join (pretrained_root dataset) ("item_embeddings_" +:+ lambda_V +:+ ".pt").
Definition local_pretrained_user_emb_path (lambda_V : string) : string :=
  os_path_join local_root ("user_embeddings_" +:+ lambda_V +:+ ".pt").
Definition local_pretrained_item_emb_path (lambda_V : string) : string :=
  os_path_join local_root ("item_embeddings_" +:+ lambda_V +:+ ".pt").

(** The seven [save_local] calls of [main] in program order (lines 153,
    154, 171, 175, 209, 228 and 229).  The constructors and loaders that
    [main] calls between them are not part of this list. *)
Definition main_save_local_calls (dataset lambda_V : string) : list staging_call :=
  [ Call remote_vocab_file vocab_file mode_r mode_w;
    Call remote_merges_file merges_file mode_r mode_w;
    Call (remote_train_mat_path dataset) local_train_mat_path mode_rb mode_wb;
    Call (remote_test_mat_path dataset) local_test_mat_path mode_rb mode_wb;
    Call remote_pretrained_weights_path local_pretrained_weights_path
      mode_rb mode_wb;
    Call (remote_pretrained_user_emb_path dataset lambda_V)
      (local_pretrained_user_emb_path lambda_V) mode_rb mode_wb;
    Call (remote_pretrained_item_emb_path dataset lambda_V)
      (local_pretrained_item_emb_path lambda_V) mode_rb mode_wb ].

(** The directory a path is joined under: the path itself when it ends in
    a slash, the path and a slash otherwise. *)
Definition as_directory (a : string) : string :=
  match get (String.length a - 1) a with
  | Some "/"%char => a
  | _ => a +:+ "/"
  end.

(** ** The script around [main] (lines 315-335) *)

Record email : Type := Email {
  mail_from : string;
  mail_to : string;
  mail_subject : string;
  mail_body : string
}.

(** How the mail server answers: whether connecting, logging in, sending
    and quitting go through or raise. *)
Record smtp_answers : Type := Smtp {
  connect_ok : bool;
  login_ok : bool;
  sendmail_ok : bool;
  quit_ok : bool
}.

Record process : Type := Process {
  proc_world : world;
  outbox : list email
}.

Definition task : string := "[v519: evaluate cllm4rec]".

(** [MIMEText('Task {task} Finished'.format(task = task), ...)] with its
    three headers. *)
Definition notification : email :=
  Email "1849334588@qq.com" "esperanto1949@foxmail.com" "Auto Email"
        ("Task " +:+ task +:+ " Finished").

(** [main()], then the mail: connect, log in, send, quit. *)
Definition script {A} (main_call : M A) (smtp : smtp_answers) (p : process)
  : option unit * process :=
  match main_call (proc_world p) with
  | (None, w') => (None, Process w' (outbox p))
  | (Some _, w') =>
      if negb (connect_ok smtp) then (None, Process w' (outbox p))
      else if negb (login_ok smtp) then (None, Process w' (outbox p))
      else if negb (sendmail_ok smtp) then (None, Process w' (outbox p))
      else if negb (quit_ok smtp)
           then (None, Process w' (outbox p ++ [notification]))
           else (Some tt, Process w' (outbox p ++ [notification]))
  end.

(** ** Concrete runs

    The user of the spec's scenarios: four items, items 1 and 3 held out,
    item 0 seen in training. *)

Definition scenario_scores : list score :=
  [Fin (9 # 10); Fin (8 # 10); Fin (1 # 10); Fin (7 # 10)].

Definition scenario_model
  : tensor nat -> tensor Z -> tensor nat -> option (unit * tensor score) :=
  fun _ _ _ => Some (tt, [scenario_scores]).

Definition scenario_batch : batch :=
  Batch [[0]] [[1; 0; 0; 0]%Z] [[0; 1; 0; 1]%Z] [[1]].

Definition scenario_masked : tensor score :=
  [[NegInf; Fin (8 # 10); Fin (1 # 10); Fin (7 # 10)]].

(** A model that gives negative infinity to an item the user never
    interacted with. *)
Definition tie_model
  : tensor nat -> tensor Z -> tensor nat -> option (unit * tensor score) :=
  fun _ _ _ => Some (tt, [[Fin 1; NegInf]]).

Definition tie_batch : batch := Batch [[0]] [[1; 0]%Z] [[0; 1]%Z] [[1]].

(** A model whose scores are read off the target matrix it is given. *)
Definition leaky_model
  : tensor nat -> tensor Z -> tensor nat -> option (unit * tensor score) :=
  fun _ target _ =>
    Some (tt, (fun row : list Z => (fun x => Fin (inject_Z x)) <$> row) <$> target).

(** A model that scores every user of a batch like the scenario user. *)
Definition rowwise_model
  : tensor nat -> tensor Z -> tensor nat -> option (unit * tensor score) :=
  fun ids _ _ => Some (tt, (fun _ : list nat => scenario_scores) <$> ids).

(** Three users in two batches of unequal size; the second user has no
    held-out item. *)
Definition two_batches : list batch :=
  [ Batch [[0]] [[1; 0; 0; 0]%Z] [[0; 1; 0; 1]%Z] [[1]];
    Batch [[1]; [2]] [[0; 0; 0; 0]%Z; [0; 1; 0; 0]%Z]
          [[0; 0; 0; 0]%Z; [1; 0; 0; 1]%Z] [[1]; [1]] ].

Definition two_batches_masked : list (tensor score) :=
  [ scenario_masked;
    [ scenario_scores; [Fin (9 # 10); NegInf; Fin (1 # 10); Fin (7 # 10)] ] ].

Definition two_batches_sums : metrics :=
  metrics_add
    (metrics_add (Metrics 0 0 0 0 0)
       (batch_metrics [[0; 1; 0; 1]%Z] scenario_masked))
    (batch_metrics [[0; 0; 0; 0]%Z; [1; 0; 0; 1]%Z]
       [ scenario_scores; [Fin (9 # 10); NegInf; Fin (1 # 10); Fin (7 # 10)] ]).

(** The same three users as a test generator. *)
Definition three_users : list sample :=
  [ Sample [0] [1; 0; 0; 0]%Z [0; 1; 0; 1]%Z [1];
    Sample [1] [0; 0; 0; 0]%Z [0; 0; 0; 0]%Z [1];
    Sample [2] [0; 1; 0; 0]%Z [1; 0; 0; 1]%Z [1] ].



(** A model that raises on every batch of more than one user. *)
Definition raising_model
  : tensor nat -> tensor Z -> tensor nat -> option (unit * tensor score) :=
  fun ids _ _ =>
    if length ids <=? 1 then Some (tt, (fun _ : list nat => scenario_scores) <$> ids)
    else None.

(** A model whose scores are all NaN. *)
Definition nan_model
  : tensor nat -> tensor Z -> tensor nat -> option (unit * tensor score) :=
  fun ids _ _ => Some (tt, (fun _ : list nat => [NaN; NaN; NaN; NaN]) <$> ids).

Definition nan_sums : metrics :=
  metrics_add (Metrics 0 0 0 0 0)
    (batch_metrics [[0; 1; 0; 1]%Z] [[NegInf; NaN; NaN; NaN]]).

Definition has_nan (t : tensor score) : Prop :=
  exists row : list score, row ∈ t /\ NaN ∈ row.

Definition two_batches_world : world :=
  World
    (<[1 := [ scenario_scores;
              [Fin (9 # 10); NegInf; Fin (1 # 10); Fin (7 # 10)] ]]>
       (<[0 := scenario_masked]> ∅))
    ([] ++ report_console (metrics_div two_batches_sums 3) 0 1 3)
    (<["results.txt" := report_text (metrics_div two_batches_sums 3)]> ∅).

(** A text layer that reads and writes the bytes as they are. *)
Definition plain_decode : string -> option string := Some.
Definition plain_encode : string -> string := fun s => s.

(** The seven remote inputs of the dataset "games" with [lambda_V] "1". *)
Definition remote_inputs : gmap string string :=
  list_to_map
    [ (remote_vocab_file, "{}");
      (remote_merges_file, "#version: 0.2");
      (remote_train_mat_path "games", "train");
      (remote_test_mat_path "games", "test");
      (remote_pretrained_weights_path, "weights");
      (remote_pretrained_user_emb_path "games" "1", "users");
      (remote_pretrained_item_emb_path "games" "1", "items") ].

(** Only the tokenizer files are there. *)
Definition tokenizer_only : gmap string string :=
  list_to_map
    [ (remote_vocab_file, "{}"); (remote_merges_file, "#version: 0.2") ].

(** A file system on which every path names itself and can be written,
    and one on which the results file cannot. *)
Definition plain_fs : file_system := FileSystem (fun p => p) (fun _ => true).
Definition read_only_results_fs : file_system :=
  FileSystem (fun p => p) (fun p => negb (String.eqb p "results.txt")).

(** A file system on which only the paths under "tmp/" can be written:
    the server directories are read-only. *)
Definition read_only_server_fs : file_system :=
  FileSystem (fun p => p) (fun p => String.prefix "tmp/" p).



(** * Properties *)

(** ** The ranking order *)

Section RankOrder.

Import util.

Lemma Qltb_lt (x y : Q) : Qltb x y = true <-> (x < y)%Q.
Proof.
  unfold Qltb. rewrite negb_true_iff, <- not_true_iff_false, Qle_bool_iff.
  split; [apply Qnot_le_lt | apply Qlt_not_le].
Qed.

Lemma Qltb_ge (x y : Q) : Qltb x y = false <-> (y <= x)%Q.
Proof.
  unfold Qltb. rewrite negb_false_iff, Qle_bool_iff. reflexivity.
Qed.

Lemma rank_lt_irrefl (a : score) : rank_lt a a = false.
Proof.
  destruct a; simpl; try reflexivity.
  apply Qltb_ge, Qle_refl.
Qed.

Lemma rank_lt_asym (a b : score) : rank_lt a b = true -> rank_lt b a = false.
Proof.
  destruct a, b; simpl; try congruence.
  rewrite Qltb_lt, Qltb_ge. apply Qlt_le_weak.
Qed.

Lemma rank_lt_trans (a b c : score) :
  rank_lt a b = true -> rank_lt b c = true -> rank_lt a c = true.
Proof.
  destruct a, b, c; simpl; try congruence.
  rewrite !Qltb_lt. apply Qlt_trans.
Qed.

(** The order is a total preorder: "not below" is transitive too. *)
Lemma rank_ge_trans (a b c : score) :
  rank_lt a b = false -> rank_lt b c = false -> rank_lt a c = false.
Proof.
  destruct a, b, c; simpl; try congruence.
  rewrite !Qltb_ge. intros H1 H2. eapply Qle_trans; eassumption.
Qed.

Lemma rank_lt_ge_trans (a b c : score) :
  rank_lt a b = true -> rank_lt c b = false -> rank_lt a c = true.
Proof.
  destruct a, b, c; simpl; try congruence.
  rewrite !Qltb_lt, Qltb_ge. intros H1 H2. eapply Qlt_le_trans; eassumption.
Qed.

Lemma rank_ge_lt_trans (a b c : score) :
  rank_lt b a = false -> rank_lt b c = true -> rank_lt a c = true.
Proof.
  destruct a, b, c; simpl; try congruence.
  rewrite !Qltb_lt, Qltb_ge. intros H1 H2. eapply Qle_lt_trans; eassumption.
Qed.

Variable s : list score.

Lemma before_total (i j : nat) : before s i j = true \/ before s j i = true.
Proof.
  unfold before.
  destruct (rank_lt (score_at s j) (score_at s i)) eqn:Hji; [by left|].
  destruct (rank_lt (score_at s i) (score_at s j)) eqn:Hij; [by right|].
  simpl. destruct (Nat.leb_spec i j); [by left|].
  right. apply Nat.leb_le. lia.
Qed.

Lemma before_trans (i j k : nat) :
  before s i j = true -> before s j k = true -> before s i k = true.
Proof.
  unfold before.
  destruct (rank_lt (score_at s j) (score_at s i)) eqn:Hji; simpl.
  - intros _.
    destruct (rank_lt (score_at s k) (score_at s j)) eqn:Hkj; simpl.
    + intros _. by rewrite (rank_lt_trans _ _ _ Hkj Hji).
    + destruct (rank_lt (score_at s j) (score_at s k)) eqn:Hjk; [done|].
      intros _. by rewrite (rank_ge_lt_trans _ _ _ Hjk Hji).
  - destruct (rank_lt (score_at s i) (score_at s j)) eqn:Hij; [done|].
    simpl. intros Hle1.
    destruct (rank_lt (score_at s k) (score_at s j)) eqn:Hkj; simpl.
    + intros _. by rewrite (rank_lt_ge_trans _ _ _ Hkj Hij).
    + destruct (rank_lt (score_at s j) (score_at s k)) eqn:Hjk; [done|].
      simpl. intros Hle2.
      rewrite (rank_ge_trans _ _ _ Hij Hjk), (rank_ge_trans _ _ _ Hkj Hji).
      simpl. apply Nat.leb_le. apply Nat.leb_le in Hle1, Hle2. lia.
Qed.

(** An item ranked no later than another one has no lower score. *)
Lemma before_not_lower (i j : nat) :
  before s i j = true -> rank_lt (score_at s i) (score_at s j) = false.
Proof.
  unfold before. intros [H | H]%orb_true_iff.
  - by apply rank_lt_asym.
  - apply andb_true_iff in H as [H _]. by apply negb_true_iff.
Qed.

End RankOrder.


(** ** The ranked list is a sorted permutation of the item ids *)

Section InsertBy.

Variable le : nat -> nat -> bool.
Hypothesis le_total : forall i j, le i j = true \/ le j i = true.
Hypothesis le_trans : forall i j k, le i j = true -> le j k = true -> le i k = true.

Lemma insert_by_perm (i : nat) (l : list nat) : util.insert_by le i l ≡ₚ i :: l.
Proof.
  induction l as [|j l IH]; simpl; [done|].
  destruct (le i j); [done|].
  rewrite IH. apply Permutation_swap.
Qed.

Lemma insert_by_sorted (i : nat) (l : list nat) :
  StronglySorted (fun a b => le a b = true) l ->
  StronglySorted (fun a b => le a b = true) (util.insert_by le i l).
Proof.
  induction 1 as [|j l Hs IH Hall]; simpl.
  - repeat constructor.
  - destruct (le i j) eqn:Hij.
    + constructor; [by constructor|].
      constructor; [done|].
      eapply Forall_impl; [exact Hall|]. intros k Hjk. by eapply le_trans.
    + constructor; [done|].
      rewrite insert_by_perm. constructor; [|done].
      destruct (le_total i j); congruence.
Qed.

Lemma foldr_insert_by_perm (l : list nat) : foldr (util.insert_by le) [] l ≡ₚ l.
Proof.
  induction l as [|i l IH]; simpl; [done|].
  by rewrite insert_by_perm, IH.
Qed.

Lemma foldr_insert_by_sorted (l : list nat) :
  StronglySorted (fun a b => le a b = true) (foldr (util.insert_by le) [] l).
Proof.
  induction l as [|i l IH]; simpl; [constructor|].
  by apply insert_by_sorted.
Qed.

End InsertBy.

Lemma ranked_list_perm (s : list score) :
  util.ranked_list s ≡ₚ seq 0 (length s).
Proof. apply foldr_insert_by_perm. Qed.

Lemma ranked_list_sorted (s : list score) :
  StronglySorted (fun i j => util.before s i j = true) (util.ranked_list s).
Proof.
  apply foldr_insert_by_sorted; [apply before_total | apply before_trans].
Qed.

Lemma ranked_list_NoDup (s : list score) : NoDup (util.ranked_list s).
Proof. rewrite ranked_list_perm. apply NoDup_seq. Qed.

Lemma ranked_list_bound (s : list score) (i : nat) :
  i ∈ util.ranked_list s -> i < length s.
Proof. rewrite ranked_list_perm, elem_of_seq. lia. Qed.

Lemma top_k_subset (s : list score) (k i : nat) :
  i ∈ util.top_k s k -> i ∈ util.ranked_list s.
Proof.
  unfold util.top_k. rewrite elem_of_take. intros (j & Hj & _).
  by eapply list_elem_of_lookup_2.
Qed.

Lemma filter_none {A} (P : A -> Prop) `{!forall a, Decision (P a)} (l : list A) :
  Forall (fun a => ~ P a) l -> filter P l = [].
Proof.
  induction 1 as [|a l Ha _ IH]; [done|].
  rewrite filter_cons. by destruct (decide (P a)).
Qed.

Lemma length_filter_fmap {A B} (f : A -> B) (P : B -> Prop)
    `{!forall b, Decision (P b)} (l : list A) :
  length (filter P (f <$> l)) = length (filter (fun a => P (f a)) l).
Proof.
  induction l as [|a l IH]; [done|].
  rewrite fmap_cons, !filter_cons.
  destruct (decide (P (f a))); simpl; by rewrite IH.
Qed.

(** In a sorted list, the elements of an upward-closed class come first. *)
Lemma sorted_prefix_closed (Rel : nat -> nat -> Prop) (P : nat -> Prop)
    `{!forall i, Decision (P i)} (l : list nat) (k : nat) :
  StronglySorted Rel l ->
  (forall i j, Rel i j -> P j -> P i) ->
  k <= length (filter P l) ->
  Forall P (take k l).
Proof.
  intros Hs Hup. revert k.
  induction Hs as [|a l Hs IH Hall]; intros k Hk.
  - by rewrite take_nil.
  - destruct k as [|k]; [constructor|]. simpl.
    rewrite filter_cons in Hk. destruct (decide (P a)) as [Ha|Ha].
    + constructor; [done|]. apply IH. simpl in Hk. lia.
    + exfalso.
      assert (filter P l = []) as Hnil.
      { apply filter_none. eapply Forall_impl; [exact Hall|].
        intros j Haj Pj. apply Ha. by eapply Hup. }
      rewrite Hnil in Hk. simpl in Hk. lia.
Qed.

Lemma score_at_seq (s : list score) :
  util.score_at s <$> seq 0 (length s) = s.
Proof.
  apply list_eq. intros i. rewrite list_lookup_fmap.
  destruct (decide (i < length s)) as [Hi|Hi].
  - rewrite lookup_seq_lt by done. simpl. unfold util.score_at.
    destruct (lookup_lt_is_Some_2 s i Hi) as [x Hx]. by rewrite Hx.
  - rewrite lookup_seq_ge by lia. simpl. symmetry. apply lookup_ge_None. lia.
Qed.

(** Counting the items of a class in the ranked list or in the score
    vector is the same. *)
Lemma ranked_list_count (P : score -> Prop) `{!forall a, Decision (P a)}
    (s : list score) :
  length (filter (fun i => P (util.score_at s i)) (util.ranked_list s))
  = length (filter P s).
Proof.
  rewrite (ranked_list_perm s).
  transitivity (length (filter P (util.score_at s <$> seq 0 (length s)))).
  - by rewrite length_filter_fmap.
  - by rewrite score_at_seq.
Qed.


(** ** Masking *)

Lemma index_put_row_length {A} (v : A) (dst : list A) (mask : list bool)
    (r : list A) :
  index_put_row v dst mask = Some r ->
  length dst = length mask /\ length r = length dst.
Proof.
  revert mask r. induction dst as [|x dst IH]; intros [|b mask] r; simpl; try done.
  - intros [= <-]. done.
  - destruct (index_put_row v dst mask) as [r'|] eqn:E; simpl; [|done].
    intros [= <-]. destruct (IH _ _ E). simpl. lia.
Qed.

Lemma index_put_row_lookup {A} (v : A) (dst : list A) (mask : list bool)
    (r : list A) (i : nat) (x : A) (b : bool) :
  index_put_row v dst mask = Some r ->
  dst !! i = Some x -> mask !! i = Some b ->
  r !! i = Some (if b then v else x).
Proof.
  revert mask r i. induction dst as [|y dst IH]; intros [|c mask] r i; simpl; try done.
  destruct (index_put_row v dst mask) as [r'|] eqn:E; simpl; [|done].
  intros [= <-]. destruct i as [|i]; simpl.
  - by intros [= ->] [= ->].
  - by apply IH.
Qed.

Lemma index_put_row_same_length {A} (v : A) (dst : list A) (mask : list bool) :
  length dst = length mask -> is_Some (index_put_row v dst mask).
Proof.
  revert mask. induction dst as [|x dst IH]; intros [|b mask]; simpl; try done.
  intros [= Hlen]. destruct (IH _ Hlen) as [r ->]. by eexists.
Qed.

Lemma index_put_lookup {A} (v : A) (dst : tensor A) (mask : tensor bool)
    (t : tensor A) (u : nat) (m : list bool) :
  index_put v dst mask = Some t ->
  mask !! u = Some m ->
  exists d r, dst !! u = Some d /\ t !! u = Some r /\ index_put_row v d m = Some r.
Proof.
  revert mask t u. induction dst as [|d dst IH]; intros [|m' mask] t u; simpl; try done.
  destruct (index_put_row v d m') as [r'|] eqn:E; simpl; [|done].
  destruct (index_put v dst mask) as [t'|] eqn:E'; simpl; [|done].
  intros [= <-]. destruct u as [|u]; simpl.
  - intros [= ->]. by exists d, r'.
  - by apply IH.
Qed.

Lemma index_put_length {A} (v : A) (dst : tensor A) (mask : tensor bool)
    (t : tensor A) :
  index_put v dst mask = Some t ->
  length dst = length mask /\ length t = length dst.
Proof.
  revert mask t. induction dst as [|d dst IH]; intros [|m mask] t; simpl; try done.
  - by intros [= <-].
  - destruct (index_put_row v d m) as [r'|]; simpl; [|done].
    destruct (index_put v dst mask) as [t'|] eqn:E'; simpl; [|done].
    intros [= <-]. destruct (IH _ _ E'). simpl. lia.
Qed.

Lemma tensor_gt0_lookup (t : tensor Z) (u : nat) (row : list Z) :
  t !! u = Some row ->
  tensor_gt0 t !! u = Some ((fun x => (0 <? x)%Z) <$> row).
Proof. intros H. unfold tensor_gt0. by rewrite list_lookup_fmap, H. Qed.

Section DriverFacts.

Context {loss : Type}.
Variable rec_model :
  tensor nat -> tensor Z -> tensor nat -> option (loss * tensor score).

(** The loop body, case by case: the model raises; the shapes disagree
    and the assignment raises; or the accumulators receive the metrics of
    the masked scores, which by then have replaced the model's output in
    the very same object. *)
Lemma batch_step_unfold (b : batch) (acc : metrics) (w : world) :
  batch_step loss rec_model b acc w =
  match rec_model (input_ids b) (target_mat b) (attention_mask b) with
  | None => (None, w)
  | Some (_, out) =>
      let l := fresh (dom (heap w)) in
      match index_put NegInf out (tensor_gt0 (train_mat b)) with
      | None => (None, World (<[l := out]> (heap w)) (console w) (files w))
      | Some t =>
          (Some (accumulate acc (target_mat b) t),
           World (<[l := t]> (<[l := out]> (heap w))) (console w) (files w))
      end
  end.
Proof.
  unfold batch_step, mbind, M_bind, lift_option.
  destruct (rec_model _ _ _) as [[lo out]|]; [|done].
  unfold mret, M_ret, alloc, index_put_, to_numpy. simpl.
  rewrite lookup_insert_eq.
  destruct (index_put NegInf out _) as [t|]; [|done].
  simpl. by rewrite lookup_insert_eq.
Qed.

Lemma batch_step_masked (b : batch) (acc acc' : metrics) (w w' : world) :
  batch_step loss rec_model b acc w = (Some acc', w') ->
  exists t, masked_scores loss rec_model b = Some t
    /\ acc' = accumulate acc (target_mat b) t
    /\ heap w' = <[fresh (dom (heap w)) := t]> (heap w)
    /\ console w' = console w /\ files w' = files w.
Proof.
  rewrite batch_step_unfold. unfold masked_scores.
  destruct (rec_model _ _ _) as [[lo out]|]; [|done]. simpl.
  destruct (index_put NegInf out _) as [t|]; [|done].
  intros [= <- <-]. exists t. simpl. by rewrite insert_insert_eq.
Qed.

End DriverFacts.

Lemma above_neg_inf_upward (s : list score) (i j : nat) :
  util.before s i j = true ->
  score_gt (util.score_at s j) NegInf = true ->
  score_gt (util.score_at s i) NegInf = true.
Proof.
  intros Hb%before_not_lower Hj.
  destruct (util.score_at s i), (util.score_at s j); simpl in *; congruence.
Qed.

(** Where at least [k] scores are above negative infinity, the top-[k]
    list holds such scores only. *)
Lemma top_k_above_neg_inf (s : list score) (k i : nat) :
  k <= length (filter (fun a => score_gt a NegInf = true) s) ->
  i ∈ util.top_k s k ->
  score_gt (util.score_at s i) NegInf = true.
Proof.
  intros Hk Hi.
  assert (Forall (fun i => score_gt (util.score_at s i) NegInf = true)
            (util.top_k s k)) as Hall.
  { eapply (sorted_prefix_closed (fun i j => util.before s i j = true)).
    - apply ranked_list_sorted.
    - apply above_neg_inf_upward.
    - etrans; [exact Hk|]. apply Nat.eq_le_incl. symmetry.
      exact (ranked_list_count (fun a => score_gt a NegInf = true) s). }
  rewrite Forall_forall in Hall. by apply Hall.
Qed.

(** C1 (as amended): when the loop body returns, the tensor handed to the
    metric functions has negative infinity at every position whose
    train-row entry is positive; and for every row in which at least [k]
    scores are above negative infinity, every item of the top-[k] list has
    a train-row entry that is not positive. *)
Theorem masking_excludes_train_items {loss : Type}
    (rec_model : tensor nat -> tensor Z -> tensor nat -> option (loss * tensor score))
    (b : batch) (acc acc' : metrics) (w w' : world) :
  batch_step loss rec_model b acc w = (Some acc', w') ->
  exists t : tensor score,
    heap w' !! fresh (dom (heap w)) = Some t
    /\ acc' = accumulate acc (target_mat b) t
    /\ forall (u : nat) (trow : list Z), train_mat b !! u = Some trow ->
       exists srow : list score,
         t !! u = Some srow
         /\ (forall (i : nat) (x : Z),
               trow !! i = Some x -> (0 < x)%Z -> srow !! i = Some NegInf)
         /\ (forall k : nat,
               k <= length (filter (fun a => score_gt a NegInf = true) srow) ->
               forall i : nat, i ∈ util.top_k srow k ->
               exists x : Z, trow !! i = Some x /\ (x <= 0)%Z).
Proof.
  intros (t & Hm & -> & Hheap & _ & _)%batch_step_masked.
  exists t. split; [by rewrite Hheap, lookup_insert_eq|]. split; [done|].
  intros u trow Hu. unfold masked_scores in Hm.
  destruct (rec_model _ _ _) as [[lo out]|]; [|done]. simpl in Hm.
  destruct (index_put_lookup _ _ _ _ u _ Hm (tensor_gt0_lookup _ _ _ Hu))
    as (d & srow & Hd & Ht & Hrow).
  exists srow. split; [done|].
  destruct (index_put_row_length _ _ _ _ Hrow) as [Hlen1 Hlen2].
  rewrite length_fmap in Hlen1.
  assert (forall (i : nat) (x : Z),
            trow !! i = Some x -> (0 < x)%Z -> srow !! i = Some NegInf) as Hmask.
  { intros i x Hi Hx.
    destruct (lookup_lt_is_Some_2 d i) as [y Hy].
    { rewrite Hlen1. by eapply lookup_lt_Some. }
    rewrite (index_put_row_lookup _ _ _ _ i y (0 <? x)%Z Hrow Hy).
    - by rewrite (proj2 (Z.ltb_lt 0 x) Hx).
    - by rewrite list_lookup_fmap, Hi. }
  split; [exact Hmask|].
  intros k Hk i Hi.
  pose proof (top_k_above_neg_inf _ _ _ Hk Hi) as Habove.
  apply top_k_subset, ranked_list_bound in Hi.
  destruct (lookup_lt_is_Some_2 trow i) as [x Hx]; [lia|].
  exists x. split; [done|].
  destruct (Z_lt_le_dec 0 x) as [Hpos|]; [|done].
  unfold util.score_at in Habove. by rewrite (Hmask _ _ Hx Hpos) in Habove.
Qed.

Lemma masking_excludes_train_items_witness :
  exists t : tensor score,
    heap (World (<[0 := scenario_masked]> ∅) [] ∅)
      !! fresh (dom (heap empty_world)) = Some t
    /\ accumulate (Metrics 0 0 0 0 0) (target_mat scenario_batch) scenario_masked
       = accumulate (Metrics 0 0 0 0 0) (target_mat scenario_batch) t
    /\ forall (u : nat) (trow : list Z), train_mat scenario_batch !! u = Some trow ->
       exists srow : list score,
         t !! u = Some srow
         /\ (forall (i : nat) (x : Z),
               trow !! i = Some x -> (0 < x)%Z -> srow !! i = Some NegInf)
         /\ (forall k : nat,
               k <= length (filter (fun a => score_gt a NegInf = true) srow) ->
               forall i : nat, i ∈ util.top_k srow k ->
               exists x : Z, trow !! i = Some x /\ (x <= 0)%Z).
Proof.
  apply (masking_excludes_train_items scenario_model scenario_batch
           (Metrics 0 0 0 0 0) _ empty_world).
  reflexivity.
Defined.

Lemma masking_unmasked_count_counterexample :
  ~ (forall (rec_model : tensor nat -> tensor Z -> tensor nat
                         -> option (unit * tensor score))
            (b : batch) (acc acc' : metrics) (w w' : world) (t : tensor score),
       batch_step unit rec_model b acc w = (Some acc', w') ->
       heap w' !! fresh (dom (heap w)) = Some t ->
       forall (u : nat) (trow : list Z) (srow : list score) (k : nat),
         train_mat b !! u = Some trow ->
         t !! u = Some srow ->
         k <= length (filter (fun x => (x <= 0)%Z) trow) ->
         forall i : nat, i ∈ util.top_k srow k ->
         exists x : Z, trow !! i = Some x /\ (x <= 0)%Z).
Proof.
  intros H.
  destruct (H tie_model tie_batch (Metrics 0 0 0 0 0) _ empty_world _
              [[NegInf; NegInf]] eq_refl eq_refl
              0 [1; 0]%Z [NegInf; NegInf] 1 eq_refl eq_refl (le_n 1) 0)
    as (x & Hx & Hle).
  - vm_compute. apply list_elem_of_here.
  - simpl in Hx. injection Hx as <-. lia.
Qed.

(** ** The masking assignment acts on the model's own tensor *)

(** C2 (as amended): the masking assignment overwrites the tensor object
    the model returned: when the loop body returns, that object holds
    negative infinity where the train entry is positive and the model's
    score everywhere else, every other object of the store is as before,
    and neither the console nor the files have changed. *)
Theorem masking_in_place {loss : Type}
    (rec_model : tensor nat -> tensor Z -> tensor nat -> option (loss * tensor score))
    (b : batch) (acc acc' : metrics) (w w' : world) :
  batch_step loss rec_model b acc w = (Some acc', w') ->
  exists (rec_loss : loss) (out t : tensor score),
    rec_model (input_ids b) (target_mat b) (attention_mask b) = Some (rec_loss, out)
    /\ heap w !! fresh (dom (heap w)) = None
    /\ heap w' !! fresh (dom (heap w)) = Some t
    /\ length t = length out
    /\ (forall (u i : nat) (trow : list Z) (orow : list score) (x : Z) (y : score),
          train_mat b !! u = Some trow -> out !! u = Some orow ->
          trow !! i = Some x -> orow !! i = Some y ->
          exists srow : list score,
            t !! u = Some srow
            /\ srow !! i = Some (if (0 <? x)%Z then NegInf else y))
    /\ (forall l : nat, l <> fresh (dom (heap w)) -> heap w' !! l = heap w !! l)
    /\ console w' = console w
    /\ files w' = files w.
Proof.
  intros Hstep.
  destruct (batch_step_masked _ _ _ _ _ _ Hstep) as (t & Hm & _ & Hheap & Hc & Hf).
  unfold masked_scores in Hm.
  destruct (rec_model _ _ _) as [[lo out]|]; [|done]. simpl in Hm.
  exists lo, out, t. split; [done|].
  split; [apply not_elem_of_dom, is_fresh|].
  split; [by rewrite Hheap, lookup_insert_eq|].
  split; [by apply index_put_length in Hm as [_ ?]|].
  split; [|split; [|done]].
  - intros u i trow orow x y Hu Ho Hi Hy.
    destruct (index_put_lookup _ _ _ _ u _ Hm (tensor_gt0_lookup _ _ _ Hu))
      as (d & srow & Hd & Ht & Hrow).
    exists srow. split; [done|].
    rewrite Ho in Hd. injection Hd as <-.
    apply (index_put_row_lookup _ _ _ _ i y (0 <? x)%Z Hrow Hy).
    by rewrite list_lookup_fmap, Hi.
  - intros l Hl. rewrite Hheap. by apply lookup_insert_ne.
Qed.

Lemma masking_in_place_witness :
  exists (rec_loss : unit) (out t : tensor score),
    scenario_model (input_ids scenario_batch) (target_mat scenario_batch)
      (attention_mask scenario_batch) = Some (rec_loss, out)
    /\ heap empty_world !! fresh (dom (heap empty_world)) = None
    /\ heap (World (<[0 := scenario_masked]> ∅) [] ∅)
         !! fresh (dom (heap empty_world)) = Some t
    /\ length t = length out
    /\ (forall (u i : nat) (trow : list Z) (orow : list score) (x : Z) (y : score),
          train_mat scenario_batch !! u = Some trow -> out !! u = Some orow ->
          trow !! i = Some x -> orow !! i = Some y ->
          exists srow : list score,
            t !! u = Some srow
            /\ srow !! i = Some (if (0 <? x)%Z then NegInf else y))
    /\ (forall l : nat, l <> fresh (dom (heap empty_world)) ->
          heap (World (<[0 := scenario_masked]> ∅) [] ∅) !! l = heap empty_world !! l)
    /\ console (World (<[0 := scenario_masked]> ∅) [] ∅) = console empty_world
    /\ files (World (<[0 := scenario_masked]> ∅) [] ∅) = files empty_world.
Proof.
  apply (masking_in_place scenario_model scenario_batch
           (Metrics 0 0 0 0 0)
           (accumulate (Metrics 0 0 0 0 0) (target_mat scenario_batch) scenario_masked)
           empty_world).
  reflexivity.
Defined.

Lemma masking_keeps_model_output_counterexample :
  ~ (forall (rec_model : tensor nat -> tensor Z -> tensor nat
                         -> option (unit * tensor score))
            (b : batch) (acc acc' : metrics) (w w' : world)
            (rec_loss : unit) (out : tensor score),
       batch_step unit rec_model b acc w = (Some acc', w') ->
       rec_model (input_ids b) (target_mat b) (attention_mask b)
       = Some (rec_loss, out) ->
       heap w' !! fresh (dom (heap w)) = Some out).
Proof.
  intros H.
  specialize (H scenario_model scenario_batch (Metrics 0 0 0 0 0) _ empty_world _
                tt [scenario_scores] eq_refl eq_refl).
  vm_compute in H. discriminate H.
Qed.

(** ** What the model is given *)

(** C3 (as amended): the target matrix is the second argument of the
    model call.  For a model whose result is the same whatever that
    argument is, two batches that differ in the target matrix only
    receive the same scores, before and after masking, and leave the same
    tensors in the store. *)
Theorem scores_independent_of_target {loss : Type}
    (rec_model : tensor nat -> tensor Z -> tensor nat -> option (loss * tensor score))
    (b b' : batch) :
  (forall (ids : tensor nat) (target target' : tensor Z) (mask : tensor nat),
      snd <$> rec_model ids target mask = snd <$> rec_model ids target' mask) ->
  input_ids b = input_ids b' ->
  train_mat b = train_mat b' ->
  attention_mask b = attention_mask b' ->
  snd <$> rec_model (input_ids b) (target_mat b) (attention_mask b)
  = snd <$> rec_model (input_ids b') (target_mat b') (attention_mask b')
  /\ masked_scores loss rec_model b = masked_scores loss rec_model b'
  /\ forall (acc : metrics) (w : world),
       heap (batch_step loss rec_model b acc w).2
       = heap (batch_step loss rec_model b' acc w).2.
Proof.
  intros Hmodel Hids Htrain Hmask.
  pose proof (Hmodel (input_ids b) (target_mat b) (target_mat b')
                (attention_mask b)) as Heq.
  rewrite <- Hids, <- Hmask.
  split; [exact Heq|].
  assert (masked_scores loss rec_model b = masked_scores loss rec_model b') as Hms.
  { unfold masked_scores. rewrite <- Hids, <- Hmask, <- Htrain.
    destruct (rec_model (input_ids b) (target_mat b) (attention_mask b))
      as [[lo out]|],
      (rec_model (input_ids b) (target_mat b') (attention_mask b))
      as [[lo' out']|]; simpl in *; congruence. }
  split; [exact Hms|].
  intros acc w. rewrite !batch_step_unfold.
  rewrite <- Hids, <- Hmask, <- Htrain.
  destruct (rec_model (input_ids b) (target_mat b) (attention_mask b))
    as [[lo out]|],
    (rec_model (input_ids b) (target_mat b') (attention_mask b))
    as [[lo' out']|]; simpl in *; try congruence.
  injection Heq as <-.
  by destruct (index_put NegInf out (tensor_gt0 (train_mat b))).
Qed.

Lemma scores_independent_of_target_witness :
  snd <$> scenario_model (input_ids scenario_batch) (target_mat scenario_batch)
            (attention_mask scenario_batch)
  = snd <$> scenario_model [[0]] [[0; 0; 0; 0]%Z] [[1]]
  /\ masked_scores unit scenario_model scenario_batch
     = masked_scores unit scenario_model
         (Batch [[0]] [[1; 0; 0; 0]%Z] [[0; 0; 0; 0]%Z] [[1]])
  /\ forall (acc : metrics) (w : world),
       heap (batch_step unit scenario_model scenario_batch acc w).2
       = heap (batch_step unit scenario_model
                 (Batch [[0]] [[1; 0; 0; 0]%Z] [[0; 0; 0; 0]%Z] [[1]]) acc w).2.
Proof.
  apply (scores_independent_of_target scenario_model scenario_batch
           (Batch [[0]] [[1; 0; 0; 0]%Z] [[0; 0; 0; 0]%Z] [[1]]));
    reflexivity.
Defined.

Lemma scores_depend_on_target_counterexample :
  ~ (forall (rec_model : tensor nat -> tensor Z -> tensor nat
                         -> option (unit * tensor score))
            (b b' : batch),
       input_ids b = input_ids b' ->
       train_mat b = train_mat b' ->
       attention_mask b = attention_mask b' ->
       masked_scores unit rec_model b = masked_scores unit rec_model b').
Proof.
  intros H.
  specialize (H leaky_model
                (Batch [[0]] [[0; 0]%Z] [[0; 1]%Z] [[1]])
                (Batch [[0]] [[0; 0]%Z] [[1; 0]%Z] [[1]])
                eq_refl eq_refl eq_refl).
  vm_compute in H. discriminate H.
Qed.

(** ** Sums over batches *)




Lemma metrics_eq (a b : metrics) :
  cur_recall_1 a = cur_recall_1 b ->
  cur_recall_5 a = cur_recall_5 b ->
  cur_recall_10 a = cur_recall_10 b ->
  cur_NDCG_5 a = cur_NDCG_5 b ->
  cur_NDCG_10 a = cur_NDCG_10 b ->
  a = b.
Proof. destruct a, b. simpl. by intros -> -> -> -> ->. Qed.



Lemma accumulate_add (acc : metrics) (target : tensor Z) (scores : tensor score) :
  accumulate acc target scores = metrics_add acc (batch_metrics target scores).
Proof. reflexivity. Qed.


Lemma metrics_add_zero_r (a : metrics) : metrics_add a (Metrics 0 0 0 0 0) = a.
Proof. apply metrics_eq; simpl; lra. Qed.

Lemma metrics_add_assoc (a b c : metrics) :
  metrics_add (metrics_add a b) c = metrics_add a (metrics_add b c).
Proof. apply metrics_eq; simpl; lra. Qed.


Section LoopFacts.

Context {loss : Type}.
Variable rec_model :
  tensor nat -> tensor Z -> tensor nat -> option (loss * tensor score).

(** The loop either scores every batch and adds up the batch sums, or
    raises with the console and the files as they were. *)
Lemma eval_loop_Some (loader : list batch) (acc acc' : metrics) (w w' : world) :
  eval_loop loss rec_model loader acc w = (Some acc', w') ->
  exists ts : list (tensor score),
    Forall2 (fun b t => masked_scores loss rec_model b = Some t) loader ts
    /\ acc' = metrics_add acc
         (metrics_sum (zip_with (fun b t => batch_metrics (target_mat b) t) loader ts))
    /\ console w' = console w /\ files w' = files w.
Proof.
  revert acc w. induction loader as [|b loader IH]; intros acc w; simpl.
  - intros [= <- <-]. exists []. split; [constructor|].
    simpl. by rewrite metrics_add_zero_r.
  - unfold mbind, M_bind.
    destruct (batch_step loss rec_model b acc w) as [[acc1|] w1] eqn:Hstep; [|done].
    intros Hloop.
    destruct (batch_step_masked _ _ _ _ _ _ Hstep) as (t & Hm & -> & _ & Hc & Hf).
    destruct (IH _ _ Hloop) as (ts & Hall & -> & Hc' & Hf').
    exists (t :: ts). split; [by constructor|].
    split; [|by rewrite Hc', Hf', Hc, Hf].
    simpl. by rewrite accumulate_add, metrics_add_assoc.
Qed.

Lemma eval_loop_None (loader : list batch) (acc : metrics) (w w' : world) :
  eval_loop loss rec_model loader acc w = (None, w') ->
  console w' = console w /\ files w' = files w.
Proof.
  revert acc w. induction loader as [|b loader IH]; intros acc w; simpl; [done|].
  unfold mbind, M_bind.
  destruct (batch_step loss rec_model b acc w) as [[acc1|] w1] eqn:Hstep.
  - intros Hloop. destruct (IH _ _ Hloop) as [-> ->].
    by destruct (batch_step_masked _ _ _ _ _ _ Hstep) as (_ & _ & _ & _ & -> & ->).
  - intros [= <-]. rewrite batch_step_unfold in Hstep.
    destruct (rec_model _ _ _) as [[lo out]|]; [|by injection Hstep as <-].
    simpl in Hstep.
    destruct (index_put NegInf out _); [done|]. by injection Hstep as <-.
Qed.

Lemma eval_loop_failing_batch (loader : list batch) (acc : metrics) (w : world)
    (b : batch) :
  b ∈ loader -> masked_scores loss rec_model b = None ->
  (eval_loop loss rec_model loader acc w).1 = None.
Proof.
  intros Hin Hb.
  destruct (eval_loop loss rec_model loader acc w) as [[acc'|] w'] eqn:Hloop; [|done].
  destruct (eval_loop_Some _ _ _ _ _ Hloop) as (ts & Hall & _).
  apply list_elem_of_lookup in Hin as [i Hi].
  destruct (Forall2_lookup_l _ _ _ _ _ Hall Hi) as (t & _ & Ht). congruence.
Qed.


End LoopFacts.

Section EvaluateFacts.

Context {loss : Type}.
Variable rec_model :
  tensor nat -> tensor Z -> tensor nat -> option (loss * tensor score).
Variable fs : file_system.

(** A run that returns went through the whole loop, divided the
    accumulated sums by [len], printed the report and could open the
    results file, into which it wrote the report. *)
Lemma evaluate_Some (path : string) (loader : list batch) (len : nat)
    (start end_ : R) (w w' : world) (res : metrics) :
  evaluate loss rec_model fs path loader len start end_ w
  = (Some res, w') ->
  len <> 0
  /\ can_write fs path = true
  /\ exists (acc : metrics) (w1 : world),
       eval_loop loss rec_model loader (Metrics 0 0 0 0 0) w = (Some acc, w1)
       /\ res = metrics_div acc len
       /\ w' = World (heap w1)
                 (console w1 ++ report_console res start end_ len)
                 (<[resolve fs path := report_text res]> (files w1)).
Proof.
  unfold evaluate, mbind, M_bind.
  destruct (eval_loop loss rec_model loader _ w) as [[acc|] w1]; [|done].
  destruct (Nat.eqb_spec len 0) as [->|Hlen]; [done|].
  unfold mret, M_ret, print, write_file. simpl.
  destruct (can_write fs path); [|done]. simpl.
  intros [= <- <-]. split; [done|]. split; [done|]. exists acc, w1.
  split; [done|]. split; [done|]. simpl.
  by rewrite <- !app_assoc.
Qed.

(** A run that raises has written nothing.  It has printed nothing
    either, unless it raised at the very end, where the results file
    could not be opened: by then the report is on the console. *)
Lemma evaluate_None (path : string) (loader : list batch) (len : nat)
    (start end_ : R) (w w' : world) :
  evaluate loss rec_model fs path loader len start end_ w
  = (None, w') ->
  files w' = files w
  /\ (console w' = console w
      \/ (can_write fs path = false /\ len <> 0
          /\ exists (acc : metrics) (w1 : world),
               eval_loop loss rec_model loader (Metrics 0 0 0 0 0) w
               = (Some acc, w1)
               /\ console w'
                  = console w
                    ++ report_console (metrics_div acc len) start end_ len)).
Proof.
  unfold evaluate, mbind, M_bind.
  destruct (eval_loop loss rec_model loader _ w) as [[acc|] w1] eqn:Hloop.
  - destruct (eval_loop_Some _ _ _ _ _ _ Hloop) as (_ & _ & _ & Hc & Hf).
    destruct (Nat.eqb_spec len 0) as [->|Hlen].
    + intros [= <-]. split; [done|]. by left.
    + unfold mret, M_ret, print, write_file. simpl.
      destruct (can_write fs path) eqn:Hcw; [done|]. simpl.
      intros [= <-]. simpl. split; [done|]. right.
      split; [done|]. split; [done|]. exists acc, w1. split; [done|].
      rewrite Hc. by rewrite <- !app_assoc.
  - intros [= <-]. destruct (eval_loop_None _ _ _ _ _ Hloop) as [Hc Hf].
    split; [done|]. by left.
Qed.

Lemma evaluate_run (path : string) (loader : list batch) (len : nat)
    (start end_ : R) (w w1 : world) (acc : metrics) :
  eval_loop loss rec_model loader (Metrics 0 0 0 0 0) w = (Some acc, w1) ->
  len <> 0 ->
  can_write fs path = true ->
  evaluate loss rec_model fs path loader len start end_ w
  = (Some (metrics_div acc len),
     World (heap w1)
       (console w1 ++ report_console (metrics_div acc len) start end_ len)
       (<[resolve fs path := report_text (metrics_div acc len)]> (files w1))).
Proof.
  intros Hloop Hlen Hcw. unfold evaluate, mbind, M_bind. rewrite Hloop.
  destruct (Nat.eqb_spec len 0) as [->|_]; [done|].
  unfold mret, M_ret, print, write_file. simpl. rewrite Hcw. simpl.
  by rewrite <- !app_assoc.
Qed.

(** The results file cannot be opened: the run raises after the report
    has been printed, and no file is written. *)
Lemma evaluate_unwritable (path : string) (loader : list batch) (len : nat)
    (start end_ : R) (w w1 : world) (acc : metrics) :
  eval_loop loss rec_model loader (Metrics 0 0 0 0 0) w = (Some acc, w1) ->
  len <> 0 ->
  can_write fs path = false ->
  evaluate loss rec_model fs path loader len start end_ w
  = (None,
     World (heap w1)
       (console w1 ++ report_console (metrics_div acc len) start end_ len)
       (files w1)).
Proof.
  intros Hloop Hlen Hcw. unfold evaluate, mbind, M_bind. rewrite Hloop.
  destruct (Nat.eqb_spec len 0) as [->|_]; [done|].
  unfold mret, M_ret, print, write_file. simpl. rewrite Hcw. simpl.
  by rewrite <- !app_assoc.
Qed.

End EvaluateFacts.

(** ** Aggregation *)

Section AccumulatorFacts.

Context {num : Type}.
Variable zero : num.
Variable add : num -> num -> num.
Variable div_len : num -> nat -> num.
Variable user_metric : list Z -> list score -> num.

Hypothesis add_assoc : forall x y z : num, add x (add y z) = add (add x y) z.
Hypothesis add_zero_l : forall x : num, add zero x = x.
Hypothesis add_zero_r : forall x : num, add x zero = x.

Lemma foldl_add_shift (x : num) (l : list num) :
  foldl add x l = add x (foldl add zero l).
Proof.
  revert x. induction l as [|y l IH]; intros x; simpl.
  - by rewrite add_zero_r.
  - rewrite (IH (add x y)), (IH (add zero y)), add_zero_l.
    by rewrite add_assoc.
Qed.



End AccumulatorFacts.




(** The accumulators of [evaluate] are this pattern over the reals. *)

Lemma sum_R_foldl (l : list R) : util.sum_R l = foldl Rplus 0%R l.
Proof.
  unfold util.sum_R. induction l as [|x l IH]; simpl; [done|].
  rewrite IH.
  rewrite (foldl_add_shift 0%R Rplus) with (x := (0 + x)%R);
    intros; lra.
Qed.

Lemma Recall_at_k_metric_sum (target : tensor Z) (scores : tensor score)
    (k : nat) :
  util.Recall_at_k target scores k
  = metric_sum 0%R Rplus (fun t s => util.recall_user t s k) target scores.
Proof. unfold util.Recall_at_k, util.Recall_per_user. apply sum_R_foldl. Qed.

Lemma NDCG_at_k_metric_sum (target : tensor Z) (scores : tensor score)
    (k : nat) :
  util.NDCG_at_k target scores k
  = metric_sum 0%R Rplus (fun t s => util.ndcg_user t s k) target scores.
Proof. unfold util.NDCG_at_k, util.NDCG_per_user. apply sum_R_foldl. Qed.

Lemma eval_loop_accumulators {loss : Type}
    (rec_model : tensor nat -> tensor Z -> tensor nat -> option (loss * tensor score))
    (loader : list batch) (acc acc' : metrics) (w w' : world) :
  eval_loop loss rec_model loader acc w = (Some acc', w') ->
  exists ts : list (tensor score),
    Forall2 (fun b t => masked_scores loss rec_model b = Some t) loader ts
    /\ let batches := zip (target_mat <$> loader) ts in
       acc' = Metrics
         (accumulated (fun t s => util.recall_user t s 1) (cur_recall_1 acc) batches)
         (accumulated (fun t s => util.recall_user t s 5) (cur_recall_5 acc) batches)
         (accumulated (fun t s => util.recall_user t s 10) (cur_recall_10 acc) batches)
         (accumulated (fun t s => util.ndcg_user t s 5) (cur_NDCG_5 acc) batches)
         (accumulated (fun t s => util.ndcg_user t s 10) (cur_NDCG_10 acc) batches).
Proof.
  revert acc w. induction loader as [|b loader IH]; intros acc w; simpl.
  - intros [= <- <-]. exists []. split; [constructor|]. by destruct acc.
  - unfold mbind, M_bind.
    destruct (batch_step loss rec_model b acc w) as [[acc1|] w1] eqn:Hstep; [|done].
    intros Hloop.
    destruct (batch_step_masked _ _ _ _ _ _ Hstep) as (t & Hm & -> & _).
    destruct (IH _ _ Hloop) as (ts & Hall & ->).
    exists (t :: ts). split; [by constructor|].
    unfold accumulated, accumulate. cbn [fmap list_fmap zip zip_with foldl fst snd
      cur_recall_1 cur_recall_5 cur_recall_10 cur_NDCG_5 cur_NDCG_10].
    by rewrite !Recall_at_k_metric_sum, !NDCG_at_k_metric_sum.
Qed.

(** A run that returns reports, for each metric, the accumulator run over
    the reals on the batches' targets and masked scores. *)
Lemma evaluate_accumulators {loss : Type}
    (rec_model : tensor nat -> tensor Z -> tensor nat -> option (loss * tensor score))
    (fs : file_system)
    (path : string) (loader : list batch) (len : nat) (start end_ : R)
    (w w' : world) (res : metrics) :
  evaluate loss rec_model fs path loader len start end_ w
  = (Some res, w') ->
  exists ts : list (tensor score),
    Forall2 (fun b t => masked_scores loss rec_model b = Some t) loader ts
    /\ let batches := zip (target_mat <$> loader) ts in
       res = Metrics
         (real_accumulator_run (fun t s => util.recall_user t s 1) batches len)
         (real_accumulator_run (fun t s => util.recall_user t s 5) batches len)
         (real_accumulator_run (fun t s => util.recall_user t s 10) batches len)
         (real_accumulator_run (fun t s => util.ndcg_user t s 5) batches len)
         (real_accumulator_run (fun t s => util.ndcg_user t s 10) batches len).
Proof.
  intros (Hlen & _ & acc & w1 & Hloop & -> & _)%evaluate_Some.
  destruct (eval_loop_accumulators _ _ _ _ _ _ Hloop) as (ts & Hall & ->).
  exists ts. split; [done|]. reflexivity.
Qed.

Lemma two_batches_loop :
  eval_loop unit rowwise_model two_batches (Metrics 0 0 0 0 0) empty_world
  = (Some two_batches_sums,
     World (<[1 := [ scenario_scores;
                     [Fin (9 # 10); NegInf; Fin (1 # 10); Fin (7 # 10)] ]]>
              (<[0 := scenario_masked]> ∅)) [] ∅).
Proof. reflexivity. Qed.

(** ** Recall *)

Lemma num_hits_app (t : list Z) (l1 l2 : list nat) :
  util.num_hits t (l1 ++ l2) = util.num_hits t l1 + util.num_hits t l2.
Proof. unfold util.num_hits. by rewrite filter_app, length_app. Qed.

Lemma num_hits_take_mono (t : list Z) (l : list nat) (k k' : nat) :
  k <= k' -> util.num_hits t (take k l) <= util.num_hits t (take k' l).
Proof.
  intros Hk.
  rewrite <- (take_drop k (take k' l)), num_hits_app, take_take.
  rewrite (Nat.min_l k k') by done. lia.
Qed.

(** C7: for a fixed test row and score vector, Recall@K does not decrease
    when K grows. *)
Theorem recall_monotone (t : list Z) (s : list score) (k k' : nat) :
  k <= k' -> (util.recall_user t s k <= util.recall_user t s k')%R.
Proof.
  intros Hk. unfold util.recall_user.
  destruct (Nat.eqb_spec (util.num_positives t) 0) as [_|Hpos]; [lra|].
  apply Rmult_le_compat_r.
  - apply Rlt_le, Rinv_0_lt_compat, lt_0_INR. lia.
  - apply le_INR. unfold util.top_k. by apply num_hits_take_mono.
Qed.

Lemma recall_monotone_witness :
  (util.recall_user [0; 1; 0; 1]%Z scenario_scores 1
   <= util.recall_user [0; 1; 0; 1]%Z scenario_scores 2)%R.
Proof. apply (recall_monotone [0; 1; 0; 1]%Z scenario_scores 1 2). lia. Defined.

(** ** NDCG *)

Lemma ln_2_pos : (0 < ln 2)%R.
Proof. rewrite <- ln_1. apply ln_increasing; lra. Qed.

Lemma log2_pos (x : R) : (1 < x)%R -> (0 < util.log2 x)%R.
Proof.
  intros Hx. unfold util.log2. apply Rdiv_lt_0_compat; [|apply ln_2_pos].
  rewrite <- ln_1. apply ln_increasing; lra.
Qed.

Lemma log2_le (x y : R) : (0 < x)%R -> (x <= y)%R -> (util.log2 x <= util.log2 y)%R.
Proof.
  intros Hx [Hlt | ->]; [|lra]. unfold util.log2.
  apply Rmult_le_compat_r; [apply Rlt_le, Rinv_0_lt_compat, ln_2_pos|].
  apply Rlt_le, ln_increasing; lra.
Qed.

Lemma rank_arg_gt_1 (pos : nat) : 1 <= pos -> (1 < INR pos + 1)%R.
Proof. intros H. apply lt_0_INR in H. lra. Qed.

(** The discount of a rank position is positive and shrinks with the
    position. *)
Lemma discount_pos (pos : nat) :
  1 <= pos -> (0 < 1 / util.log2 (INR pos + 1))%R.
Proof.
  intros H. apply Rdiv_lt_0_compat; [lra|]. by apply log2_pos, rank_arg_gt_1.
Qed.

Lemma discount_antitone (pos : nat) :
  1 <= pos ->
  (1 / util.log2 (INR (S pos) + 1) <= 1 / util.log2 (INR pos + 1))%R.
Proof.
  intros H. unfold Rdiv. rewrite !Rmult_1_l.
  apply Rinv_le_contravar; [by apply log2_pos, rank_arg_gt_1|].
  apply log2_le; [pose proof (rank_arg_gt_1 pos H); lra|].
  rewrite S_INR. lra.
Qed.

Lemma gain_bounds (t : list Z) (pos i : nat) :
  1 <= pos -> (0 <= util.gain t pos i <= 1 / util.log2 (INR pos + 1))%R.
Proof.
  intros H. pose proof (discount_pos pos H) as Hd. unfold util.gain.
  destruct (util.relevant t i); [lra|].
  unfold Rdiv in *. rewrite Rmult_0_l. lra.
Qed.

Lemma gain_relevant (t : list Z) (pos i : nat) :
  util.relevant t i = true -> util.gain t pos i = (1 / util.log2 (INR pos + 1))%R.
Proof. intros H. unfold util.gain. by rewrite H. Qed.

Lemma gain_irrelevant (t : list Z) (pos i : nat) :
  util.relevant t i = false -> util.gain t pos i = 0%R.
Proof. intros H. unfold util.gain. rewrite H. unfold Rdiv. lra. Qed.

Lemma ideal_from_nonneg (pos n : nat) : 1 <= pos -> (0 <= util.ideal_from pos n)%R.
Proof.
  revert pos. induction n as [|n IH]; intros pos H; cbn [util.ideal_from]; [lra|].
  pose proof (discount_pos pos H). specialize (IH (S pos) ltac:(lia)). lra.
Qed.

Lemma ideal_from_pos (pos n : nat) :
  1 <= pos -> 0 < n -> (0 < util.ideal_from pos n)%R.
Proof.
  intros H Hn. destruct n as [|n]; [lia|]. cbn [util.ideal_from].
  pose proof (discount_pos pos H). pose proof (ideal_from_nonneg (S pos) n ltac:(lia)). lra.
Qed.

Lemma ideal_from_shift (pos n : nat) :
  1 <= pos -> (util.ideal_from (S pos) n <= util.ideal_from pos n)%R.
Proof.
  revert pos. induction n as [|n IH]; intros pos H; cbn [util.ideal_from]; [lra|].
  pose proof (discount_antitone pos H). specialize (IH (S pos) ltac:(lia)). lra.
Qed.

Lemma ideal_from_mono (pos n m : nat) :
  1 <= pos -> n <= m -> (util.ideal_from pos n <= util.ideal_from pos m)%R.
Proof.
  revert pos m. induction n as [|n IH]; intros pos m H Hnm; cbn [util.ideal_from].
  - by apply ideal_from_nonneg.
  - destruct m as [|m]; [lia|]. cbn [util.ideal_from].
    specialize (IH (S pos) m ltac:(lia) ltac:(lia)). lra.
Qed.

Lemma dcg_from_nonneg (t : list Z) (pos : nat) (l : list nat) :
  1 <= pos -> (0 <= util.dcg_from t pos l)%R.
Proof.
  revert pos. induction l as [|i l IH]; intros pos H; cbn [util.dcg_from]; [lra|].
  pose proof (gain_bounds t pos i H). specialize (IH (S pos) ltac:(lia)). lra.
Qed.

(** The hits of a list earn the most when they stand in front. *)
Lemma dcg_from_le_ideal (t : list Z) (pos : nat) (l : list nat) :
  1 <= pos ->
  (util.dcg_from t pos l <= util.ideal_from pos (util.num_hits t l))%R.
Proof.
  revert pos. induction l as [|i l IH]; intros pos H.
  { unfold util.num_hits. simpl. lra. }
  cbn [util.dcg_from].
  specialize (IH (S pos) ltac:(lia)). unfold util.num_hits in *.
  rewrite filter_cons. destruct (util.relevant t i) eqn:Hrel.
  - rewrite decide_True by done. cbn [length util.ideal_from].
    rewrite (gain_relevant _ _ _ Hrel). lra.
  - rewrite decide_False by congruence. rewrite (gain_irrelevant _ _ _ Hrel).
    pose proof (ideal_from_shift pos (length (filter (fun i => util.relevant t i = true) l)) H).
    lra.
Qed.

Lemma lookup_default_seq (t : list Z) :
  (fun i => default 0%Z (t !! i)) <$> seq 0 (length t) = t.
Proof.
  apply list_eq. intros i. rewrite list_lookup_fmap.
  destruct (decide (i < length t)) as [Hi|Hi].
  - rewrite lookup_seq_lt by done. simpl.
    destruct (lookup_lt_is_Some_2 t i Hi) as [x Hx]. by rewrite Hx.
  - rewrite lookup_seq_ge by lia. simpl. symmetry. apply lookup_ge_None. lia.
Qed.

Lemma relevant_bound (t : list Z) (i : nat) :
  util.relevant t i = true -> i < length t.
Proof.
  unfold util.relevant. intros H. apply lookup_lt_is_Some.
  destruct (t !! i); [done|]. simpl in H. discriminate H.
Qed.

(** Distinct items cannot hit more often than the test row has positive
    entries. *)
Lemma num_hits_le_positives (t : list Z) (l : list nat) :
  NoDup l -> util.num_hits t l <= util.num_positives t.
Proof.
  intros Hnd. unfold util.num_hits, util.num_positives.
  transitivity (length (filter (fun i => util.relevant t i = true) (seq 0 (length t)))).
  - apply submseteq_length, NoDup_submseteq; [by apply NoDup_filter|].
    intros i [Hrel _]%list_elem_of_filter. apply list_elem_of_filter.
    split; [done|]. apply elem_of_seq. apply relevant_bound in Hrel. lia.
  - apply Nat.eq_le_incl.
    rewrite <- (lookup_default_seq t) at 2.
    rewrite length_filter_fmap. f_equal. apply list_filter_iff.
    intros i. unfold util.relevant. apply Z.ltb_lt.
Qed.

Lemma num_hits_le_length (t : list Z) (l : list nat) :
  util.num_hits t l <= length l.
Proof. apply length_filter. Qed.

Lemma DCG_le_IDCG (t : list Z) (s : list score) (k : nat) :
  (util.DCG t s k <= util.IDCG t k)%R.
Proof.
  unfold util.DCG, util.IDCG.
  etrans; [apply dcg_from_le_ideal; lia|].
  apply ideal_from_mono; [lia|]. apply Nat.min_glb.
  - etrans; [apply num_hits_le_length|]. unfold util.top_k.
    rewrite length_take. lia.
  - apply num_hits_le_positives. unfold util.top_k.
    eapply sublist_NoDup; [apply ranked_list_NoDup | apply sublist_take].
Qed.

(** C6: NDCG@K lies between 0 and 1 for every test row, score vector and
    K; and it is 0 when IDCG@K is 0, which is the case exactly when K is 0
    or the test row has no positive entry. *)
Theorem ndcg_bounds (t : list Z) (s : list score) (k : nat) :
  (0 <= util.ndcg_user t s k <= 1)%R
  /\ (util.IDCG t k = 0%R -> util.ndcg_user t s k = 0%R)
  /\ (util.IDCG t k = 0%R <-> k = 0 \/ util.num_positives t = 0).
Proof.
  assert (util.IDCG t k = 0%R <-> k = 0 \/ util.num_positives t = 0) as Hzero.
  { unfold util.IDCG. split.
    - intros H0. destruct (Nat.min k (util.num_positives t)) as [|n] eqn:Hmin; [lia|].
      pose proof (ideal_from_pos 1 (S n) (le_n 1) ltac:(lia)). lra.
    - intros H. replace (Nat.min k (util.num_positives t)) with 0 by lia. done. }
  split; [|split; [|exact Hzero]].
  - unfold util.ndcg_user. destruct (Req_dec_T (util.IDCG t k) 0) as [|Hne]; [lra|].
    assert (0 < util.IDCG t k)%R as Hpos.
    { unfold util.IDCG in *. apply ideal_from_pos; [lia|].
      destruct (Nat.min k (util.num_positives t)); [|lia]. done. }
    pose proof (DCG_le_IDCG t s k). pose proof (dcg_from_nonneg t 1 (util.top_k s k) (le_n 1)).
    split.
    + apply Rmult_le_pos; [done|]. by apply Rlt_le, Rinv_0_lt_compat.
    + apply Rmult_le_reg_r with (util.IDCG t k); [done|].
      unfold Rdiv. rewrite Rmult_assoc, Rinv_l by done. lra.
  - intros H0. unfold util.ndcg_user. by destruct (Req_dec_T (util.IDCG t k) 0).
Qed.

Lemma ndcg_bounds_witness :
  (0 <= util.ndcg_user [0; 0; 0; 0]%Z scenario_scores 5 <= 1)%R
  /\ (util.IDCG [0; 0; 0; 0]%Z 5 = 0%R ->
      util.ndcg_user [0; 0; 0; 0]%Z scenario_scores 5 = 0%R)
  /\ (util.IDCG [0; 0; 0; 0]%Z 5 = 0%R <->
      5 = 0 \/ util.num_positives [0; 0; 0; 0]%Z = 0).
Proof. apply (ndcg_bounds [0; 0; 0; 0]%Z scenario_scores 5). Defined.

(** ** Users without held-out items *)





(** ** The loader *)

Lemma chunks_fuel_concat {A} (fuel n : nat) (l : list A) :
  0 < n -> length l <= fuel -> concat (chunks_fuel fuel n l) = l.
Proof.
  intros Hn. revert l. induction fuel as [|fuel IH]; intros l Hl; simpl.
  - destruct l; [done|]. simpl in Hl. lia.
  - destruct l as [|x l]; [done|].
    cbn [concat]. rewrite IH; [apply take_drop|].
    rewrite length_drop. simpl in *. lia.
Qed.










(** ** Failures *)

Lemma index_put_row_None {A} (v : A) (dst : list A) (mask : list bool) :
  index_put_row v dst mask = None <-> length dst <> length mask.
Proof.
  split.
  - intros H Hlen. destruct (index_put_row_same_length v dst mask Hlen). congruence.
  - intros Hlen. destruct (index_put_row v dst mask) as [r|] eqn:E; [|done].
    by apply index_put_row_length in E as [? _].
Qed.

Lemma index_put_shape {A} (v : A) (dst : tensor A) (mask : tensor bool) :
  is_Some (index_put v dst mask) <-> shape dst = shape mask.
Proof.
  unfold shape. revert mask.
  induction dst as [|d dst IH]; intros [|m mask]; simpl.
  - split; [done|by eexists].
  - split; [by intros [? ?]|done].
  - split; [by intros [? ?]|done].
  - destruct (index_put_row v d m) as [r|] eqn:Er; simpl.
    + apply index_put_row_length in Er as [Hlen _].
      destruct (index_put v dst mask) as [t|] eqn:Et; simpl.
      * split; [|by eexists]. intros _. f_equal; [done|].
        apply IH. by eexists.
      * split; [by intros [? ?]|]. intros [= _ Hs].
        apply IH in Hs as [? ?]. congruence.
    + apply index_put_row_None in Er.
      split; [by intros [? ?]|]. by intros [= ? _].
Qed.

Lemma shape_tensor_gt0 (t : tensor Z) : shape (tensor_gt0 t) = shape t.
Proof.
  unfold shape, tensor_gt0. rewrite <- list_fmap_compose.
  apply list_fmap_ext. intros _ row _. simpl. by rewrite length_fmap.
Qed.

(** The two ways a batch can fail: the model raises, or its output does
    not have the shape of the train matrix. *)
Lemma masked_scores_None {loss : Type}
    (rec_model : tensor nat -> tensor Z -> tensor nat -> option (loss * tensor score))
    (b : batch) :
  masked_scores loss rec_model b = None <->
  rec_model (input_ids b) (target_mat b) (attention_mask b) = None
  \/ exists (rec_loss : loss) (out : tensor score),
       rec_model (input_ids b) (target_mat b) (attention_mask b)
       = Some (rec_loss, out)
       /\ shape out <> shape (train_mat b).
Proof.
  unfold masked_scores.
  destruct (rec_model _ _ _) as [[lo out]|]; simpl; [|by split; [left|]].
  split.
  - intros H. right. exists lo, out. split; [done|]. intros Hs.
    rewrite <- shape_tensor_gt0 in Hs.
    apply (index_put_shape NegInf) in Hs as [? ?]. congruence.
  - intros [H|(lo' & out' & [= <- <-] & Hs)]; [done|].
    destruct (index_put NegInf out (tensor_gt0 (train_mat b))) eqn:E; [|done].
    exfalso. apply Hs. rewrite <- shape_tensor_gt0.
    apply (index_put_shape NegInf). by eexists.
Qed.

(** C8 (as amended): if on some batch the model raises, or returns a
    tensor whose shape is not that of the train matrix (the masking
    assignment then raises), the run raises, and it has printed and
    written nothing.  Every run ends in one of three ways: it scores all
    batches, prints the report and writes the results file; or it raises
    with the console and the files as they were; or it scores all
    batches, prints the report and raises because the results file cannot
    be opened for writing, with the report on the console and the files
    as they were. *)
Theorem failed_scoring_reports_nothing {loss : Type}
    (rec_model : tensor nat -> tensor Z -> tensor nat -> option (loss * tensor score))
    (fs : file_system)
    (path : string) (loader : list batch) (len : nat) (start end_ : R) (w : world) :
  (forall b : batch, b ∈ loader ->
     (rec_model (input_ids b) (target_mat b) (attention_mask b) = None
      \/ exists (rec_loss : loss) (out : tensor score),
           rec_model (input_ids b) (target_mat b) (attention_mask b)
           = Some (rec_loss, out)
           /\ shape out <> shape (train_mat b)) ->
     exists w' : world,
       evaluate loss rec_model fs path loader len start end_ w
       = (None, w')
       /\ console w' = console w /\ files w' = files w)
  /\ ((exists (res : metrics) (w' : world),
         evaluate loss rec_model fs path loader len start end_ w
         = (Some res, w')
         /\ Forall (fun b => is_Some (masked_scores loss rec_model b)) loader
         /\ can_write fs path = true
         /\ console w' = console w ++ report_console res start end_ len
         /\ files w' = <[resolve fs path := report_text res]> (files w))
      \/ (exists w' : world,
            evaluate loss rec_model fs path loader len start end_ w
            = (None, w')
            /\ console w' = console w /\ files w' = files w)
      \/ (exists (w' w1 : world) (acc : metrics),
            evaluate loss rec_model fs path loader len start end_ w
            = (None, w')
            /\ Forall (fun b => is_Some (masked_scores loss rec_model b)) loader
            /\ eval_loop loss rec_model loader (Metrics 0 0 0 0 0) w
               = (Some acc, w1)
            /\ len <> 0
            /\ can_write fs path = false
            /\ console w'
               = console w
                 ++ report_console (metrics_div acc len) start end_ len
            /\ files w' = files w)).
Proof.
  assert (forall (acc : metrics) (w1 : world),
    eval_loop loss rec_model loader (Metrics 0 0 0 0 0) w = (Some acc, w1) ->
    Forall (fun b => is_Some (masked_scores loss rec_model b)) loader
    /\ forall b : batch, b ∈ loader ->
         masked_scores loss rec_model b <> None) as Hscored.
  { intros acc w1 Hloop.
    destruct (eval_loop_Some _ _ _ _ _ _ Hloop) as (ts & Hall & _).
    assert (forall b : batch, b ∈ loader ->
              is_Some (masked_scores loss rec_model b)) as Hsome.
    { intros b Hb. apply list_elem_of_lookup in Hb as [i Hi].
      destruct (Forall2_lookup_l _ _ _ _ _ Hall Hi) as (t & _ & Ht).
      by eexists. }
    split; [by apply Forall_forall|].
    intros b Hb Hnone. destruct (Hsome b Hb) as [t Ht]. congruence. }
  destruct (evaluate loss rec_model fs path loader len start end_ w)
    as [[res|] w'] eqn:Hrun.
  - destruct (evaluate_Some _ _ _ _ _ _ _ _ _ _ Hrun)
      as (Hlen & Hcw & acc & w1 & Hloop & -> & ->).
    destruct (eval_loop_Some _ _ _ _ _ _ Hloop) as (ts & Hall & _ & Hc & Hf).
    destruct (Hscored _ _ Hloop) as [Hall' Hnot].
    split.
    + intros b Hb Hfail%masked_scores_None. by destruct (Hnot b Hb).
    + left. eexists _, _. split; [done|]. simpl. by rewrite Hc, Hf.
  - destruct (evaluate_None _ _ _ _ _ _ _ _ _ Hrun)
      as [Hf [Hc|(Hcw & Hlen & acc & w1 & Hloop & Hc)]].
    + split; [intros _ _ _|right; left]; by exists w'.
    + destruct (Hscored _ _ Hloop) as [Hall' Hnot].
      split.
      * intros b Hb Hfail%masked_scores_None. by destruct (Hnot b Hb).
      * right; right. by exists w', w1, acc.
Qed.

Lemma failed_scoring_reports_nothing_witness :
  exists w' : world,
    evaluate unit raising_model plain_fs "results.txt" two_batches 3 0 1
      empty_world
    = (None, w')
    /\ console w' = console empty_world /\ files w' = files empty_world.
Proof.
  apply (proj1 (failed_scoring_reports_nothing raising_model plain_fs
                  "results.txt" two_batches 3 0 1 empty_world)
           (Batch [[1]; [2]] [[0; 0; 0; 0]%Z; [0; 1; 0; 0]%Z]
              [[0; 0; 0; 0]%Z; [1; 0; 0; 1]%Z] [[1]; [1]])).
  - apply list_elem_of_further, list_elem_of_here.
  - left. reflexivity.
Defined.

(** The third way, in a run: every batch is scored and the report is on
    the console, but the results file cannot be opened; the run raises
    and there is no results file. *)
Lemma unwritable_results_run :
  evaluate unit rowwise_model read_only_results_fs "results.txt" two_batches 3
    0 1 empty_world
  = (None,
     World (<[1 := [ scenario_scores;
                     [Fin (9 # 10); NegInf; Fin (1 # 10); Fin (7 # 10)] ]]>
              (<[0 := scenario_masked]> ∅))
       (report_console (metrics_div two_batches_sums 3) 0 1 3) ∅).
Proof.
  rewrite (evaluate_unwritable rowwise_model read_only_results_fs "results.txt"
             two_batches 3 0 1 empty_world _ two_batches_sums
             two_batches_loop); [done|lia|reflexivity].
Qed.

Lemma nan_loop :
  eval_loop unit nan_model [scenario_batch] (Metrics 0 0 0 0 0) empty_world
  = (Some nan_sums, World (<[0 := [[NegInf; NaN; NaN; NaN]]]> ∅) [] ∅).
Proof. reflexivity. Qed.

Lemma nan_scores_reported_counterexample :
  ~ (forall (rec_model : tensor nat -> tensor Z -> tensor nat
                         -> option (unit * tensor score))
            (fs : file_system)
            (path : string) (loader : list batch) (len : nat) (start end_ : R)
            (w : world) (b : batch) (out : tensor score),
       b ∈ loader ->
       rec_model (input_ids b) (target_mat b) (attention_mask b) = Some (tt, out) ->
       has_nan out ->
       (evaluate unit rec_model fs path loader len start end_ w).1
       = None).
Proof.
  intros H.
  specialize (H nan_model plain_fs "results.txt" [scenario_batch] 1
                0%R 1%R empty_world
                scenario_batch [[NaN; NaN; NaN; NaN]]
                (list_elem_of_here _ _) eq_refl).
  rewrite (evaluate_run nan_model plain_fs "results.txt"
             [scenario_batch] 1 0 1
             empty_world _ nan_sums nan_loop) in H by (lia || reflexivity).
  simpl in H. assert (has_nan [[NaN; NaN; NaN; NaN]]) as Hnan.
  { exists [NaN; NaN; NaN; NaN]. split; apply list_elem_of_here. }
  specialize (H Hnan). discriminate H.
Qed.

(** ** The inference time *)



(** ** The report *)

Lemma digit_char_code (d : nat) : nat_of_ascii (digit_char d) = 48 + d mod 10.
Proof.
  unfold digit_char. apply nat_ascii_embedding.
  pose proof (Nat.mod_upper_bound d 10). lia.
Qed.

Lemma digit_char_is_digit (d : nat) : is_digit (digit_char d) = true.
Proof.
  unfold is_digit. rewrite digit_char_code.
  pose proof (Nat.mod_upper_bound d 10).
  apply andb_true_iff. split; apply Nat.leb_le; lia.
Qed.

Lemma digits_fuel_all_digits (fuel n : nat) (acc : string) :
  all_digits acc = true -> all_digits (digits_fuel fuel n acc) = true.
Proof.
  revert n acc. induction fuel as [|fuel IH]; intros n acc Hacc; cbn [digits_fuel]; [done|].
  assert (all_digits (String (digit_char n) acc) = true) as Hnext.
  { cbn [all_digits]. by rewrite digit_char_is_digit, Hacc. }
  destruct (n / 10 =? 0); [done|]. by apply IH.
Qed.

Lemma digits_fuel_nonempty (fuel n : nat) (acc : string) :
  acc <> EmptyString -> digits_fuel fuel n acc <> EmptyString.
Proof.
  revert n acc. induction fuel as [|fuel IH]; intros n acc Hacc; cbn [digits_fuel]; [done|].
  destruct (n / 10 =? 0); [done|]. by apply IH.
Qed.

Lemma digits_fuel_value (fuel n : nat) (acc : string) :
  n < fuel ->
  exists k : nat, forall a : nat,
    digits_value a (digits_fuel fuel n acc) = digits_value (a * 10 ^ k + n) acc.
Proof.
  revert n acc. induction fuel as [|fuel IH]; intros n acc Hn; [lia|].
  cbn [digits_fuel]. destruct (Nat.eqb_spec (n / 10) 0) as [Hsmall|Hbig].
  - exists 1. intros a. cbn [digits_value]. rewrite digit_char_code.
    f_equal. apply Nat.div_small_iff in Hsmall; [|lia].
    rewrite Nat.mod_small by done. rewrite Nat.pow_1_r. lia.
  - assert (n / 10 < fuel) as Hlt.
    { assert (10 <= n) as Hge.
      { destruct (Nat.lt_ge_cases n 10) as [Hs|]; [|done].
        apply (Nat.div_small_iff n 10) in Hs; lia. }
      pose proof (Nat.div_lt n 10). lia. }
    destruct (IH (n / 10) (String (digit_char n) acc) Hlt) as [k Hk].
    exists (S k). intros a. rewrite Hk. cbn [digits_value].
    rewrite digit_char_code. f_equal.
    pose proof (Nat.div_mod_eq n 10). rewrite Nat.pow_succ_r by lia. lia.
Qed.

Lemma string_of_nat_value (n : nat) : digits_value 0 (string_of_nat n) = n.
Proof.
  unfold string_of_nat.
  destruct (digits_fuel_value (S n) n EmptyString (Nat.lt_succ_diag_r n)) as [k Hk].
  rewrite Hk. cbn [digits_value]. lia.
Qed.

Lemma string_of_nat_digits (n : nat) : all_digits (string_of_nat n) = true.
Proof. by apply digits_fuel_all_digits. Qed.

Lemma string_of_nat_nonempty (n : nat) : string_of_nat n <> EmptyString.
Proof.
  unfold string_of_nat. cbn [digits_fuel].
  destruct (n / 10 =? 0); [done|]. by apply digits_fuel_nonempty.
Qed.

Lemma Rabs_le_bounds (a b : R) : (Rabs a <= b)%R -> (- b <= a <= b)%R.
Proof. unfold Rabs. destruct (Rcase_abs a); lra. Qed.

Lemma round_half_even_bound (x : R) :
  (Rabs (IZR (round_half_even x) - x) <= 1 / 2)%R.
Proof.
  unfold round_half_even. pose proof (Zfloor_bound x) as [Hlo Hhi].
  destruct (Rlt_dec (x - IZR (Zfloor x)) (1 / 2)) as [H1|H1].
  { apply Rabs_le. lra. }
  destruct (Rlt_dec (1 / 2) (x - IZR (Zfloor x))) as [H2|H2].
  { rewrite plus_IZR. apply Rabs_le. lra. }
  destruct (Z.even (Zfloor x)); [|rewrite plus_IZR]; apply Rabs_le; lra.
Qed.

Lemma round_half_even_nonneg (x : R) : (0 <= x)%R -> (0 <= round_half_even x)%Z.
Proof.
  intros Hx. assert (0 <= Zfloor x)%Z as Hf by (by apply Zfloor_lub).
  unfold round_half_even.
  repeat match goal with |- context [if ?c then _ else _] => destruct c end; lia.
Qed.

Lemma four_digits_value (z : Z) :
  (0 <= z)%Z ->
  digits_value 0
    (String (digit_char (Z.to_nat (z / 1000 mod 10)))
       (String (digit_char (Z.to_nat (z / 100 mod 10)))
          (String (digit_char (Z.to_nat (z / 10 mod 10)))
             (String (digit_char (Z.to_nat (z mod 10))) EmptyString))))
  = Z.to_nat (z mod 10000).
Proof.
  intros Hz. cbn [digits_value]. rewrite !digit_char_code.
  assert (forall y : Z, Z.to_nat (y mod 10) mod 10 = Z.to_nat (y mod 10)) as Hmod.
  { intros y. apply Nat.mod_small. pose proof (Z.mod_pos_bound y 10). lia. }
  rewrite !Hmod.
  pose proof (Z.mod_pos_bound (z / 1000) 10).
  pose proof (Z.mod_pos_bound (z / 100) 10).
  pose proof (Z.mod_pos_bound (z / 10) 10).
  pose proof (Z.mod_pos_bound z 10).
  pose proof (Z.mod_pos_bound z 10000).
  apply Nat2Z.inj. rewrite Z2Nat.id by lia.
  replace (48 + Z.to_nat (z / 1000 mod 10) - 48) with (Z.to_nat (z / 1000 mod 10)) by lia.
  replace (48 + Z.to_nat (z / 100 mod 10) - 48) with (Z.to_nat (z / 100 mod 10)) by lia.
  replace (48 + Z.to_nat (z / 10 mod 10) - 48) with (Z.to_nat (z / 10 mod 10)) by lia.
  replace (48 + Z.to_nat (z mod 10) - 48) with (Z.to_nat (z mod 10)) by lia.
  rewrite !Nat2Z.inj_add, !Nat2Z.inj_mul, !Z2Nat.id by lia.
  simpl Z.of_nat. Z.to_euclidean_division_equations. lia.
Qed.

Lemma format_4f_fixed_point (x : R) : fixed_point_4 x (format_4f x).
Proof.
  unfold fixed_point_4, format_4f.
  set (z := round_half_even (Rabs x * 10000)).
  assert (0 <= z)%Z as Hz.
  { apply round_half_even_nonneg. pose proof (Rabs_pos x). lra. }
  eexists _, _. split; [reflexivity|].
  split; [apply string_of_nat_nonempty|].
  split; [apply string_of_nat_digits|].
  split; [cbn [all_digits]; by rewrite !digit_char_is_digit|].
  split; [reflexivity|].
  rewrite string_of_nat_value, four_digits_value by done.
  pose proof (round_half_even_bound (Rabs x * 10000)) as Hb. fold z in Hb.
  rewrite !INR_IZR_INZ, !Z2Nat.id
    by (try apply Z.div_pos; try apply Z.mod_pos_bound; lia).
  assert (IZR z = IZR (z / 10000) * 10000 + IZR (z mod 10000))%R as Hsplit.
  { rewrite <- mult_IZR, <- plus_IZR. f_equal.
    pose proof (Z.div_mod z 10000). lia. }
  apply Rabs_le_bounds in Hb. apply Rabs_le. lra.
Qed.

(** *** Lines *)

Lemma string_app_assoc (a b c : string) : (a +:+ b) +:+ c = a +:+ (b +:+ c).
Proof.
  induction a as [|x a IH]; [reflexivity|].
  change (String x ((a +:+ b) +:+ c) = String x (a +:+ (b +:+ c))).
  by rewrite IH.
Qed.

Lemma string_app_nil_r (a : string) : a +:+ "" = a.
Proof.
  induction a as [|x a IH]; [reflexivity|].
  change (String x (a +:+ "") = String x a). by rewrite IH.
Qed.

Lemma no_line_feed_app (a b : string) :
  no_line_feed (a +:+ b) = no_line_feed a && no_line_feed b.
Proof.
  induction a as [|c a IH]; [done|].
  change (String c a +:+ b) with (String c (a +:+ b)).
  cbn [no_line_feed]. rewrite IH. by rewrite andb_assoc.
Qed.

Lemma is_digit_not_line_feed (c : ascii) :
  is_digit c = true -> Ascii.eqb c line_feed = false.
Proof. destruct (Ascii.eqb_spec c line_feed) as [->|]; [by vm_compute|done]. Qed.

Lemma all_digits_no_line_feed (s : string) :
  all_digits s = true -> no_line_feed s = true.
Proof.
  induction s as [|c s IH]; [done|].
  cbn [all_digits no_line_feed]. intros [Hc Hs]%andb_true_iff.
  by rewrite (is_digit_not_line_feed c Hc), IH.
Qed.

(** A four-decimal numeral holds no line feed. *)
Lemma fixed_point_4_no_line_feed (x : R) (s : string) :
  fixed_point_4 x s -> no_line_feed s = true.
Proof.
  intros (int & frac & -> & _ & Hint & Hfrac & _).
  rewrite !no_line_feed_app.
  rewrite (all_digits_no_line_feed _ Hint), (all_digits_no_line_feed _ Hfrac).
  by destruct (Rlt_dec x 0).
Qed.

Lemma split_lines_from_one (cur s : string) :
  no_line_feed s = true -> split_lines_from cur s = [cur +:+ s].
Proof.
  revert cur. induction s as [|c s IH]; intros cur.
  - intros _. cbn [split_lines_from]. by rewrite string_app_nil_r.
  - cbn [no_line_feed split_lines_from]. intros [Hc Hs]%andb_true_iff.
    apply negb_true_iff in Hc. rewrite Hc, IH by done.
    by rewrite string_app_assoc.
Qed.

(** Two pieces without a line feed, joined by one: two lines. *)
Lemma split_lines_two (a b : string) :
  no_line_feed a = true -> no_line_feed b = true ->
  split_lines (a +:+ String "010"%char b) = [a; b].
Proof.
  intros Ha Hb. unfold split_lines.
  assert (forall cur : string,
    split_lines_from cur (a +:+ String "010"%char b) = [cur +:+ a; b]) as H.
  { induction a as [|c a IH]; intros cur.
    - change ("" +:+ String "010"%char b) with (String "010"%char b).
      cbn [split_lines_from].
      change (Ascii.eqb "010"%char line_feed) with true. cbv iota.
      by rewrite (split_lines_from_one "" b Hb), string_app_nil_r.
    - cbn [no_line_feed] in Ha. apply andb_true_iff in Ha as [Hc Ha].
      apply negb_true_iff in Hc.
      change (String c a +:+ String "010"%char b)
        with (String c (a +:+ String "010"%char b)).
      cbn [split_lines_from]. rewrite Hc, IH by done.
      by rewrite string_app_assoc. }
  by rewrite H.
Qed.

(** C9: a run that returns leaves in the results file two lines: a header
    line naming Recall@1, Recall@5, Recall@10, NDCG@5 and NDCG@10 and,
    after one line feed, a data line of the five values separated by
    commas, each the four-decimal fixed-point numeral of the metric; the
    console receives the same five numerals, one labelled line each,
    after the inference time and a title line. *)
Theorem report_format {loss : Type}
    (rec_model : tensor nat -> tensor Z -> tensor nat -> option (loss * tensor score))
    (fs : file_system)
    (path : string) (loader : list batch) (len : nat) (start end_ : R)
    (w w' : world) (res : metrics) :
  evaluate loss rec_model fs path loader len start end_ w
  = (Some res, w') ->
  exists r1 r5 r10 n5 n10 : string,
    files w' !! resolve fs path
    = Some ("Recall@1,Recall@5,Recall@10,NDCG@5,NDCG@10"
            +:+ String "010"%char
                  (r1 +:+ "," +:+ r5 +:+ "," +:+ r10 +:+ "," +:+ n5
                   +:+ "," +:+ n10))
    /\ split_lines
         ("Recall@1,Recall@5,Recall@10,NDCG@5,NDCG@10"
          +:+ String "010"%char
                (r1 +:+ "," +:+ r5 +:+ "," +:+ r10 +:+ "," +:+ n5
                 +:+ "," +:+ n10))
       = ["Recall@1,Recall@5,Recall@10,NDCG@5,NDCG@10";
          r1 +:+ "," +:+ r5 +:+ "," +:+ r10 +:+ "," +:+ n5 +:+ "," +:+ n10]
    /\ console w' = console w ++
         [PrintValue "Inference Time:" ((start - end_) / INR len);
          PrintText "Final Testing Results:";
          PrintText ("Recall@1: " +:+ r1);
          PrintText ("Recall@5: " +:+ r5);
          PrintText ("Recall@10: " +:+ r10);
          PrintText ("NDCG@5: " +:+ n5);
          PrintText ("NDCG@10: " +:+ n10)]
    /\ fixed_point_4 (cur_recall_1 res) r1
    /\ fixed_point_4 (cur_recall_5 res) r5
    /\ fixed_point_4 (cur_recall_10 res) r10
    /\ fixed_point_4 (cur_NDCG_5 res) n5
    /\ fixed_point_4 (cur_NDCG_10 res) n10.
Proof.
  intros (Hlen & _ & acc & w1 & Hloop & Hres & ->)%evaluate_Some.
  destruct (eval_loop_Some _ _ _ _ _ _ Hloop) as (_ & _ & _ & Hc & _).
  exists (format_4f (cur_recall_1 res)), (format_4f (cur_recall_5 res)),
    (format_4f (cur_recall_10 res)), (format_4f (cur_NDCG_5 res)),
    (format_4f (cur_NDCG_10 res)).
  split; [simpl; by rewrite lookup_insert_eq|].
  split.
  { apply split_lines_two; [reflexivity|].
    rewrite !no_line_feed_app.
    rewrite !(fixed_point_4_no_line_feed _ _ (format_4f_fixed_point _)).
    reflexivity. }
  split; [simpl; by rewrite Hc|].
  repeat split; apply format_4f_fixed_point.
Qed.

Lemma two_batches_run :
  evaluate unit rowwise_model plain_fs "results.txt" two_batches 3 0 1
    empty_world
  = (Some (metrics_div two_batches_sums 3), two_batches_world).
Proof.
  apply (evaluate_run rowwise_model plain_fs "results.txt" two_batches
           3 0 1 empty_world _ two_batches_sums two_batches_loop);
    [lia|reflexivity].
Qed.

Lemma report_format_witness :
  exists r1 r5 r10 n5 n10 : string,
    files two_batches_world !! "results.txt"
    = Some ("Recall@1,Recall@5,Recall@10,NDCG@5,NDCG@10"
            +:+ String "010"%char
                  (r1 +:+ "," +:+ r5 +:+ "," +:+ r10 +:+ "," +:+ n5
                   +:+ "," +:+ n10))
    /\ split_lines
         ("Recall@1,Recall@5,Recall@10,NDCG@5,NDCG@10"
          +:+ String "010"%char
                (r1 +:+ "," +:+ r5 +:+ "," +:+ r10 +:+ "," +:+ n5
                 +:+ "," +:+ n10))
       = ["Recall@1,Recall@5,Recall@10,NDCG@5,NDCG@10";
          r1 +:+ "," +:+ r5 +:+ "," +:+ r10 +:+ "," +:+ n5 +:+ "," +:+ n10]
    /\ console two_batches_world = console empty_world ++
         [PrintValue "Inference Time:" ((0 - 1) / INR 3);
          PrintText "Final Testing Results:";
          PrintText ("Recall@1: " +:+ r1);
          PrintText ("Recall@5: " +:+ r5);
          PrintText ("Recall@10: " +:+ r10);
          PrintText ("NDCG@5: " +:+ n5);
          PrintText ("NDCG@10: " +:+ n10)]
    /\ fixed_point_4 (cur_recall_1 (metrics_div two_batches_sums 3)) r1
    /\ fixed_point_4 (cur_recall_5 (metrics_div two_batches_sums 3)) r5
    /\ fixed_point_4 (cur_recall_10 (metrics_div two_batches_sums 3)) r10
    /\ fixed_point_4 (cur_NDCG_5 (metrics_div two_batches_sums 3)) n5
    /\ fixed_point_4 (cur_NDCG_10 (metrics_div two_batches_sums 3)) n10.
Proof.
  apply (report_format rowwise_model plain_fs "results.txt" two_batches
           3 0 1 empty_world two_batches_world
           (metrics_div two_batches_sums 3)).
  exact two_batches_run.
Defined.

(** ** The scenarios of the spec *)

Example scenario_A_top_2 : util.top_k scenario_scores 2 = [0; 1].
Proof. reflexivity. Qed.

Example scenario_A_recall_2 :
  util.recall_user [0; 1; 0; 1]%Z scenario_scores 2 = (1 / 2)%R.
Proof.
  unfold util.recall_user.
  change (util.num_positives [0; 1; 0; 1]%Z) with 2.
  change (util.num_hits [0; 1; 0; 1]%Z (util.top_k scenario_scores 2)) with 1.
  simpl. lra.
Qed.

Example scenario_B_top_2 :
  util.top_k [NegInf; Fin (8 # 10); Fin (1 # 10); Fin (7 # 10)] 2 = [1; 3].
Proof. reflexivity. Qed.

Example scenario_B_recall_2 :
  util.recall_user [0; 1; 0; 1]%Z
    [NegInf; Fin (8 # 10); Fin (1 # 10); Fin (7 # 10)] 2 = 1%R.
Proof.
  unfold util.recall_user.
  change (util.num_positives [0; 1; 0; 1]%Z) with 2.
  change (util.num_hits [0; 1; 0; 1]%Z
            (util.top_k [NegInf; Fin (8 # 10); Fin (1 # 10); Fin (7 # 10)] 2))
    with 2.
  simpl. lra.
Qed.

Example scenario_A_ndcg_2 :
  util.ndcg_user [0; 1; 0; 1]%Z scenario_scores 2
  = ((1 / util.log2 3) / (1 / util.log2 2 + 1 / util.log2 3))%R.
Proof.
  pose proof (discount_pos 1 (le_n 1)) as H1.
  pose proof (discount_pos 2 ltac:(lia)) as H2.
  unfold util.ndcg_user, util.IDCG, util.DCG.
  change (util.num_positives [0; 1; 0; 1]%Z) with 2.
  change (util.top_k scenario_scores 2) with [0; 1].
  change (Nat.min 2 2) with 2.
  cbn [util.ideal_from util.dcg_from].
  rewrite (gain_irrelevant [0; 1; 0; 1]%Z 1 0 eq_refl).
  rewrite (gain_relevant [0; 1; 0; 1]%Z 2 1 eq_refl).
  replace (INR 1 + 1)%R with 2%R in * by (simpl; lra).
  replace (INR 2 + 1)%R with 3%R in * by (simpl; lra).
  destruct (Req_dec_T _ 0) as [H0|_]; [lra|].
  f_equal; lra.
Qed.

(** * Further properties of the code *)

(** ** Copying files *)

Lemma set_files_files (fs : gmap string string) (w : world) :
  files (set_files fs w) = fs.
Proof. reflexivity. Qed.

Lemma string_app_empty_l (s : string) : "" +:+ s = s.
Proof. reflexivity. Qed.

Section FileFacts.

Variable decode : string -> option string.
Variable encode : string -> string.
Variable fs : file_system.

(** A copy with matching modes from an existing (and, in text mode,
    decodable) source to a path that can be written: the destination
    receives what [copied] says. *)
Lemma save_local_copied (remote_path local_path : string) (rm wm : open_mode)
    (w : world) (c : string) :
  copied decode encode (files w) (resolve fs remote_path) rm wm = Some c ->
  can_write fs local_path = true ->
  save_local decode encode fs remote_path local_path rm wm w
  = (Some tt, set_files (<[resolve fs local_path := c]> (files w)) w).
Proof.
  unfold copied, save_local, mbind, M_bind, fs_open, f_read, f_write.
  intros Hc Hcw. revert Hc. destruct rm, wm; try done; cbv zeta.
  - destruct (files w !! resolve fs remote_path) as [c0|] eqn:Hr; [|done].
    simpl. rewrite Hr. simpl.
    destruct (decode c0) as [t|]; [|done]. simpl. intros [= <-].
    rewrite Hcw. simpl.
    rewrite lookup_insert_eq. simpl. by rewrite insert_insert_eq.
  - intros Hr. rewrite Hr. simpl. rewrite Hr. simpl. rewrite Hcw. simpl.
    rewrite lookup_insert_eq. simpl. by rewrite insert_insert_eq.
Qed.

(** A copy from a readable source to a path that cannot be opened for
    writing raises, and the world is as it was. *)
Lemma save_local_unwritable (remote_path local_path : string)
    (rm wm : open_mode) (w : world) :
  rm = mode_r \/ rm = mode_rb ->
  (wm = mode_w \/ wm = mode_wb) ->
  can_write fs local_path = false ->
  save_local decode encode fs remote_path local_path rm wm w = (None, w).
Proof.
  unfold save_local, mbind, M_bind, fs_open, f_read.
  intros Hrm Hwm Hcw. cbv zeta.
  destruct Hrm as [-> | ->];
    (destruct (files w !! resolve fs remote_path) as [c0|] eqn:Hr; [|done]);
    simpl; rewrite Hr; simpl.
  - destruct (decode c0); [|done]. simpl.
    by destruct Hwm as [-> | ->]; rewrite Hcw.
  - by destruct Hwm as [-> | ->]; rewrite Hcw.
Qed.

(** X1: a binary copy of an existing file to a path that can be opened
    for writing returns; afterwards the local file has the content of the
    remote one, and every other file, the console and the tensors are as
    before.  Where the local path cannot be opened for writing, the copy
    raises and the world is as it was. *)
Theorem save_local_binary_copy (remote_path local_path : string) (w : world)
    (c : string) :
  files w !! resolve fs remote_path = Some c ->
  (can_write fs local_path = true ->
   exists w' : world,
     save_local decode encode fs remote_path local_path mode_rb mode_wb w
     = (Some tt, w')
     /\ files w' !! resolve fs local_path = Some c
     /\ (forall p : string,
           p <> resolve fs local_path -> files w' !! p = files w !! p)
     /\ heap w' = heap w /\ console w' = console w)
  /\ (can_write fs local_path = false ->
      save_local decode encode fs remote_path local_path mode_rb mode_wb w
      = (None, w)).
Proof.
  intros Hr. split.
  - intros Hcw. eexists. split; [by apply save_local_copied|].
    simpl. split; [apply lookup_insert_eq|].
    split; [|done]. intros p Hp. by apply lookup_insert_ne.
  - intros Hcw. apply save_local_unwritable; auto.
Qed.

(** X2: a copy in text mode to a path that can be opened for writing
    writes the re-encoding of the decoded source: the local file equals
    the remote one exactly when encoding undoes decoding on it. *)
Theorem save_local_text_copy (remote_path local_path : string) (w : world)
    (c t : string) :
  files w !! resolve fs remote_path = Some c ->
  decode c = Some t ->
  can_write fs local_path = true ->
  exists w' : world,
    save_local decode encode fs remote_path local_path mode_r mode_w w
    = (Some tt, w')
    /\ files w' !! resolve fs local_path = Some (encode t)
    /\ (files w' !! resolve fs local_path = Some c <-> encode t = c)
    /\ (forall p : string,
          p <> resolve fs local_path -> files w' !! p = files w !! p)
    /\ heap w' = heap w /\ console w' = console w.
Proof.
  intros Hr Hd Hcw. eexists. split.
  { apply save_local_copied; [|done].
    unfold copied. rewrite Hr. simpl. by rewrite Hd. }
  simpl. split; [apply lookup_insert_eq|].
  split; [rewrite lookup_insert_eq; split; [by intros [= ->]|by intros ->]|].
  split; [|done]. intros p Hp. by apply lookup_insert_ne.
Qed.

(** A copy from a missing source raises before the destination is
    opened. *)
Lemma save_local_missing (remote_path local_path : string)
    (rm wm : open_mode) (w : world) :
  (rm = mode_r \/ rm = mode_rb) ->
  files w !! resolve fs remote_path = None ->
  save_local decode encode fs remote_path local_path rm wm w = (None, w).
Proof.
  unfold save_local, mbind, M_bind, fs_open, f_read.
  intros Hrm Hr; cbv zeta.
  by destruct Hrm as [-> | ->]; rewrite Hr.
Qed.

(** X3: when the source is missing, or is read as text and cannot be
    decoded, the copy raises and the world is untouched: the destination
    is neither created nor emptied. *)
Theorem save_local_unreadable_source (remote_path local_path : string)
    (rm wm : open_mode) (w : world) :
  (rm = mode_r \/ rm = mode_rb) ->
  (files w !! resolve fs remote_path = None
   \/ (rm = mode_r /\ exists c : string,
         files w !! resolve fs remote_path = Some c /\ decode c = None)) ->
  save_local decode encode fs remote_path local_path rm wm w = (None, w).
Proof.
  intros Hrm [Hr|(-> & c & Hr & Hd)]; [by apply save_local_missing|].
  unfold save_local, mbind, M_bind, fs_open, f_read. cbv zeta.
  rewrite Hr. simpl. rewrite Hr. simpl. by rewrite Hd.
Qed.

(** X4: text read and binary write, or binary read and text write, to a
    path that can be opened for writing: the destination is opened, hence
    emptied, before the write raises.  An earlier copy at the local path
    is lost. *)
Theorem save_local_mode_mismatch (remote_path local_path : string)
    (rm wm : open_mode) (w : world) (c : string) :
  files w !! resolve fs remote_path = Some c ->
  (rm = mode_rb /\ wm = mode_w) \/ (rm = mode_r /\ wm = mode_wb /\ is_Some (decode c)) ->
  can_write fs local_path = true ->
  exists w' : world,
    save_local decode encode fs remote_path local_path rm wm w = (None, w')
    /\ files w' !! resolve fs local_path = Some ""
    /\ (forall p : string,
          p <> resolve fs local_path -> files w' !! p = files w !! p)
    /\ heap w' = heap w /\ console w' = console w.
Proof.
  unfold save_local, mbind, M_bind, fs_open, f_read, f_write.
  intros Hr [[-> ->]|(-> & -> & t & Hd)] Hcw; cbv zeta;
    rewrite Hr; simpl; rewrite Hr; simpl.
  - rewrite Hcw. simpl. eexists. split; [done|]. simpl.
    split; [apply lookup_insert_eq|]. split; [|done].
    intros p Hp. by apply lookup_insert_ne.
  - rewrite Hd. simpl. rewrite Hcw. simpl. eexists. split; [done|]. simpl.
    split; [apply lookup_insert_eq|]. split; [|done].
    intros p Hp. by apply lookup_insert_ne.
Qed.

(** X5: a write mode given for the source raises, whatever the
    destination and its mode are, and the destination is not opened:
    where the source path can be opened for writing the source file is
    emptied (or created empty) and reading it raises; where it cannot,
    opening it raises and the world is as it was. *)
Theorem save_local_source_write_mode (remote_path local_path : string)
    (rm wm : open_mode) (w : world) :
  rm = mode_w \/ rm = mode_wb ->
  (can_write fs remote_path = true ->
   exists w' : world,
     save_local decode encode fs remote_path local_path rm wm w = (None, w')
     /\ files w' !! resolve fs remote_path = Some ""
     /\ (forall p : string,
           p <> resolve fs remote_path -> files w' !! p = files w !! p)
     /\ heap w' = heap w /\ console w' = console w)
  /\ (can_write fs remote_path = false ->
      save_local decode encode fs remote_path local_path rm wm w = (None, w)).
Proof.
  unfold save_local, mbind, M_bind, fs_open, f_read.
  intros Hrm. split; intros Hcw; cbv zeta.
  - destruct Hrm as [-> | ->]; rewrite Hcw; simpl;
      (eexists; split; [done|]); simpl;
      (split; [apply lookup_insert_eq|]); (split; [|done]);
      intros p Hp; by apply lookup_insert_ne.
  - by destruct Hrm as [-> | ->]; rewrite Hcw.
Qed.

Lemma save_remote_save_local (a b : string) (m1 m2 : open_mode) :
  save_remote decode encode fs a b m1 m2 = save_local decode encode fs a b m1 m2.
Proof. reflexivity. Qed.

(** X6: staging a file with [save_local] and sending it back with
    [save_remote], both in binary mode, to a remote path that can be
    opened for writing, leaves the world as the first copy left it: the
    remote file keeps its content. *)
Theorem save_local_save_remote_round_trip (remote_path local_path : string)
    (w : world) (c : string) :
  files w !! resolve fs remote_path = Some c ->
  can_write fs remote_path = true ->
  (_ ← save_local decode encode fs remote_path local_path mode_rb mode_wb;
   save_remote decode encode fs local_path remote_path mode_rb mode_wb) w
  = save_local decode encode fs remote_path local_path mode_rb mode_wb w.
Proof.
  intros Hr Hcr. unfold mbind at 1. unfold M_bind.
  destruct (can_write fs local_path) eqn:Hcl.
  - rewrite (save_local_copied _ _ _ _ _ c) by done.
    rewrite save_remote_save_local.
    rewrite (save_local_copied _ _ _ _ _ c).
    + simpl. f_equal. unfold set_files. simpl. f_equal.
      apply insert_id.
      destruct (decide (resolve fs remote_path = resolve fs local_path))
        as [->|Hne].
      * apply lookup_insert_eq.
      * by rewrite lookup_insert_ne.
    + simpl. apply lookup_insert_eq.
    + done.
  - by rewrite save_local_unwritable by auto.
Qed.

(** Without that: a remote file that can be read but not written, staged
    and sent back, makes the second copy raise after the first one went
    through. *)
Lemma round_trip_read_only_remote (remote_path local_path : string)
    (w : world) (c : string) :
  files w !! resolve fs remote_path = Some c ->
  can_write fs remote_path = false ->
  can_write fs local_path = true ->
  (_ ← save_local decode encode fs remote_path local_path mode_rb mode_wb;
   save_remote decode encode fs local_path remote_path mode_rb mode_wb) w
  = (None, set_files (<[resolve fs local_path := c]> (files w)) w)
  /\ save_local decode encode fs remote_path local_path mode_rb mode_wb w
     = (Some tt, set_files (<[resolve fs local_path := c]> (files w)) w).
Proof.
  intros Hr Hcr Hcl. unfold mbind at 1. unfold M_bind.
  rewrite (save_local_copied _ _ _ _ _ c) by done. split; [|done].
  rewrite save_remote_save_local.
  by rewrite save_local_unwritable by auto.
Qed.

(** X7: copying twice is copying once. *)
Theorem save_local_idempotent (remote_path local_path : string)
    (w : world) (c : string) :
  files w !! resolve fs remote_path = Some c ->
  (_ ← save_local decode encode fs remote_path local_path mode_rb mode_wb;
   save_local decode encode fs remote_path local_path mode_rb mode_wb) w
  = save_local decode encode fs remote_path local_path mode_rb mode_wb w.
Proof.
  intros Hr. unfold mbind at 1. unfold M_bind.
  destruct (can_write fs local_path) eqn:Hcl.
  - rewrite (save_local_copied _ _ _ _ _ c) by done.
    rewrite (save_local_copied _ _ _ _ _ c).
    + simpl. f_equal. unfold set_files. simpl. f_equal. apply insert_insert_eq.
    + simpl.
      destruct (decide (resolve fs remote_path = resolve fs local_path))
        as [->|Hne].
      * apply lookup_insert_eq.
      * by rewrite lookup_insert_ne.
    + done.
  - by rewrite save_local_unwritable by auto.
Qed.

End FileFacts.

(** ** Joining paths *)

Lemma prefix_slash (s : string) (x : ascii) :
  String.prefix "/" (String x s) = true <-> x = "/"%char.
Proof.
  change (String.prefix "/" (String x s))
    with (if ascii_dec "/" x then String.prefix "" s else false).
  destruct (ascii_dec "/" x) as [<-|Hne].
  - by destruct s.
  - split; [done|]. intros ->. done.
Qed.

Lemma match_last_slash {A} (o : option ascii) (u v : A) :
  match o with Some "/"%char => u | _ => v end
  = if decide (o = Some "/"%char) then u else v.
Proof.
  destruct o as [y|]; [|by rewrite decide_False].
  destruct (decide (Some y = Some "/"%char)) as [[= ->]|Hne]; [done|].
  destruct y as [[] [] [] [] [] [] [] []]; done.
Qed.

Lemma os_path_join_relative (a : string) (x : ascii) (b : string) :
  x <> "/"%char ->
  os_path_join a (String x b)
  = if decide (a = "") then String x b
    else match get (String.length a - 1) a with
         | Some "/"%char => a +:+ String x b
         | _ => a +:+ "/" +:+ String x b
         end.
Proof.
  intros Hx. unfold os_path_join.
  destruct x as [[] [] [] [] [] [] [] []]; done.
Qed.

(** [os.path.join(a, b)]: an absolute [b] replaces [a]; otherwise [b]
    follows [a], with one slash between them when [a] is not empty and
    does not end in one. *)
Lemma os_path_join_cases (a b : string) :
  (String.prefix "/" b = true /\ os_path_join a b = b)
  \/ (String.prefix "/" b = false
      /\ os_path_join a b = if decide (a = "") then b else as_directory a +:+ b).
Proof.
  assert (forall c : string,
            match get (String.length a - 1) a with
            | Some "/"%char => a +:+ c
            | _ => a +:+ "/" +:+ c
            end = as_directory a +:+ c) as Hdir.
  { intros c. unfold as_directory. rewrite !match_last_slash.
    destruct (decide _); [done|]. by rewrite string_app_assoc. }
  destruct b as [|x b].
  - right. split; [done|]. unfold os_path_join.
    destruct (decide (a = "")); [done|]. apply Hdir.
  - destruct (ascii_dec x "/") as [->|Hne].
    + left. split; [by apply prefix_slash|reflexivity].
    + right. split.
      { apply not_true_iff_false. by rewrite prefix_slash. }
      rewrite os_path_join_relative by done.
      destruct (decide (a = "")); [done|]. apply Hdir.
Qed.

Lemma prefix_slash_nonempty (a : string) : String.prefix "/" a = true -> a <> "".
Proof. by intros H ->. Qed.

Lemma as_directory_absolute (a : string) :
  String.prefix "/" a = true -> String.prefix "/" (as_directory a) = true.
Proof.
  intros Ha. unfold as_directory. rewrite match_last_slash.
  destruct (decide _); [done|].
  destruct a as [|x a]; [done|]. apply prefix_slash in Ha as ->.
  by apply prefix_slash.
Qed.

Lemma prefix_slash_app (a b : string) :
  String.prefix "/" a = true -> String.prefix "/" (a +:+ b) = true.
Proof.
  destruct a as [|x a]; [done|]. intros ->%prefix_slash. by apply prefix_slash.
Qed.

(** Joining anything to an absolute path gives an absolute path. *)
Lemma os_path_join_absolute (a b : string) :
  String.prefix "/" a = true -> String.prefix "/" (os_path_join a b) = true.
Proof.
  intros Ha. destruct (os_path_join_cases a b) as [[Hb ->]|[_ ->]]; [done|].
  rewrite decide_False by by apply prefix_slash_nonempty.
  by apply prefix_slash_app, as_directory_absolute.
Qed.


Lemma data_root_absolute (dataset : string) :
  String.prefix "/" (data_root dataset) = true.
Proof. by apply os_path_join_absolute. Qed.



(** ** Staging the inputs *)

Lemma main_local_paths (dataset lambda_V : string) :
  call_local <$> main_save_local_calls dataset lambda_V
  = [ "tmp/vocab.json"; "tmp/merges.txt"; "tmp/train_matrix.npz";
      "tmp/test_matrix.npz"; "tmp/pytorch_model.bin";
      "tmp/user_embeddings_" +:+ lambda_V +:+ ".pt";
      "tmp/item_embeddings_" +:+ lambda_V +:+ ".pt" ].
Proof. reflexivity. Qed.

(** X9: the seven [save_local] calls of [main], in program order, with
    their path strings and modes: the two tokenizer files in text mode,
    the two matrices, the weights and the two embedding files in binary
    mode, each from its place under the server directories to the same
    file name under "tmp".  As strings, the seven local paths are
    pairwise distinct and begin with "tmp/", and the seven remote paths,
    the metadata path and the results path begin with "/".  (Which files
    the strings name is for the file system to say.) *)
Theorem main_save_local_calls_paths (dataset lambda_V : string) :
  main_save_local_calls dataset lambda_V
  = [ Call "/datain/v-yinju/gpt2/vocab.json" "tmp/vocab.json" mode_r mode_w;
      Call "/datain/v-yinju/gpt2/merges.txt" "tmp/merges.txt" mode_r mode_w;
      Call (os_path_join
              (os_path_join "/datain/v-yinju/rqvae-zzx/data/CLLM4Rec" dataset)
              "train_matrix.npz")
           "tmp/train_matrix.npz" mode_rb mode_wb;
      Call (os_path_join
              (os_path_join "/datain/v-yinju/rqvae-zzx/data/CLLM4Rec" dataset)
              "test_matrix.npz")
           "tmp/test_matrix.npz" mode_rb mode_wb;
      Call "/datain/v-yinju/gpt2/pytorch_model.bin" "tmp/pytorch_model.bin"
           mode_rb mode_wb;
      Call (os_path_join
              (os_path_join
                 (os_path_join "/datain/v-yinju/rqvae-zzx/models/cllm4rec"
                    dataset) "rec")
              ("user_embeddings_" +:+ lambda_V +:+ ".pt"))
           ("tmp/user_embeddings_" +:+ lambda_V +:+ ".pt") mode_rb mode_wb;
      Call (os_path_join
              (os_path_join
                 (os_path_join "/datain/v-yinju/rqvae-zzx/models/cllm4rec"
                    dataset) "rec")
              ("item_embeddings_" +:+ lambda_V +:+ ".pt"))
           ("tmp/item_embeddings_" +:+ lambda_V +:+ ".pt") mode_rb mode_wb ]
  /\ NoDup (call_local <$> main_save_local_calls dataset lambda_V)
  /\ Forall (fun c => String.prefix "tmp/" (call_local c) = true
                      /\ String.prefix "/" (call_remote c) = true)
       (main_save_local_calls dataset lambda_V)
  /\ String.prefix "/" (meta_path dataset) = true
  /\ String.prefix "/" (results_path dataset lambda_V) = true.
Proof.
  split; [reflexivity|]. split; [|split; [|split]].
  - rewrite main_local_paths.
    repeat (apply NoDup_cons; split;
            [rewrite ?not_elem_of_cons; repeat split;
             try discriminate; apply not_elem_of_nil|]).
    apply NoDup_nil_2.
  - unfold main_save_local_calls.
    repeat (apply Forall_cons; split; [split; [reflexivity|]|]);
      try apply Forall_nil_2; try reflexivity.
    + by apply os_path_join_absolute, data_root_absolute.
    + by apply os_path_join_absolute, data_root_absolute.
    + by apply os_path_join_absolute, os_path_join_absolute, os_path_join_absolute.
    + by apply os_path_join_absolute, os_path_join_absolute, os_path_join_absolute.
  - by apply os_path_join_absolute, data_root_absolute.
  - by apply os_path_join_absolute, data_root_absolute.
Qed.

Section StagingFacts.

Variable decode : string -> option string.
Variable encode : string -> string.
Variable fs : file_system.

Lemma copied_insert_ne (store : gmap string string) (p x src : string)
    (rm wm : open_mode) :
  src <> p ->
  copied decode encode (<[p := x]> store) src rm wm
  = copied decode encode store src rm wm.
Proof. intros Hne. unfold copied. by rewrite lookup_insert_ne. Qed.

(** Calls whose sources are all readable and whose destinations can all
    be written, name distinct files and are none of the sources: every
    call goes through, each destination holds the copy of its source, and
    nothing else changes. *)
Lemma stage_copies (calls : list staging_call) (w : world) :
  Forall (fun c => is_Some (call_copied decode encode fs (files w) c)) calls ->
  Forall (fun c => can_write fs (call_local c) = true) calls ->
  Forall (fun c => remote_file fs c ∉ local_file fs <$> calls) calls ->
  NoDup (local_file fs <$> calls) ->
  exists w' : world,
    stage decode encode fs calls w = (Some tt, w')
    /\ heap w' = heap w /\ console w' = console w
    /\ (forall p : string,
          p ∉ local_file fs <$> calls -> files w' !! p = files w !! p)
    /\ Forall (fun c => files w' !! local_file fs c
                        = call_copied decode encode fs (files w) c) calls.
Proof.
  revert w. induction calls as [|c calls IH]; intros w Hsrc Hcw Hrem Hnd.
  { exists w. by repeat split. }
  apply Forall_cons in Hsrc as [[x Hx] Hsrc].
  apply Forall_cons in Hcw as [Hcw_c Hcw].
  apply Forall_cons in Hrem as [Hc Hrem].
  rewrite fmap_cons in Hnd. apply NoDup_cons in Hnd as [Hl Hnd].
  cbn [stage]. unfold mbind, M_bind.
  rewrite (save_local_copied decode encode fs _ _ _ _ _ x Hx Hcw_c).
  assert (forall c' : staging_call, c' ∈ calls ->
            call_copied decode encode fs
              (<[resolve fs (call_local c) := x]> (files w)) c'
            = call_copied decode encode fs (files w) c') as Hsame.
  { intros c' Hin. apply copied_insert_ne. intros Heq.
    rewrite Forall_forall in Hrem. apply (Hrem c' Hin).
    rewrite fmap_cons. unfold remote_file, local_file at 1. rewrite Heq.
    apply list_elem_of_here. }
  destruct (IH (set_files (<[resolve fs (call_local c) := x]> (files w)) w))
    as (w' & Hrun & Hh & Hco & Hframe & Hall).
  - rewrite Forall_forall in Hsrc |- *. intros c' Hin. simpl.
    rewrite (Hsame c' Hin). by apply Hsrc.
  - done.
  - eapply Forall_impl; [exact Hrem|]. intros c' Hc'. rewrite fmap_cons in Hc'.
    by apply not_elem_of_cons in Hc' as [_ ?].
  - done.
  - exists w'. split; [exact Hrun|]. split; [done|]. split; [done|]. split.
    + intros p Hp. rewrite fmap_cons in Hp. apply not_elem_of_cons in Hp as [Hne Hp].
      rewrite (Hframe p Hp). simpl. by apply lookup_insert_ne.
    + apply Forall_cons. split.
      * rewrite (Hframe _ Hl). simpl. unfold local_file.
        by rewrite lookup_insert_eq.
      * rewrite Forall_forall in Hall |- *. intros c' Hin.
        rewrite (Hall c' Hin). simpl. by apply Hsame.
Qed.

(** The sequence ends with the first call that raises. *)
Lemma stage_stops (pre post : list staging_call) (c : staging_call)
    (w w1 w2 : world) :
  stage decode encode fs pre w = (Some tt, w1) ->
  save_local decode encode fs (call_remote c) (call_local c)
    (call_remote_mode c) (call_local_mode c) w1 = (None, w2) ->
  stage decode encode fs (pre ++ c :: post) w = (None, w2).
Proof.
  revert w. induction pre as [|c0 pre IH]; intros w; cbn [stage app].
  - intros [= <-] Hc. unfold mbind, M_bind. by rewrite Hc.
  - unfold mbind, M_bind.
    destruct (save_local decode encode fs _ _ _ _ w) as [[[]|] w0]; [|done].
    apply IH.
Qed.

(** X10: [save_local] calls made one after the other, as the seven of
    [main] are: when every source exists (and, read as text, can be
    decoded), every local path can be opened for writing, the local paths
    name distinct files and none of them is a source, all the calls
    return; each local file then holds the copy of its remote file, and
    every other file - the remote ones among them -, the console and the
    tensors are as before. *)
Theorem staging_copies (calls : list staging_call) (w : world) :
  Forall (fun c => is_Some (call_copied decode encode fs (files w) c)) calls ->
  Forall (fun c => can_write fs (call_local c) = true) calls ->
  Forall (fun c => remote_file fs c ∉ local_file fs <$> calls) calls ->
  NoDup (local_file fs <$> calls) ->
  exists w' : world,
    stage decode encode fs calls w = (Some tt, w')
    /\ heap w' = heap w /\ console w' = console w
    /\ Forall (fun c => files w' !! local_file fs c
                        = call_copied decode encode fs (files w) c
                        /\ files w' !! remote_file fs c
                           = files w !! remote_file fs c)
         calls
    /\ (forall p : string,
          p ∉ local_file fs <$> calls -> files w' !! p = files w !! p).
Proof.
  intros Hsrc Hcw Hrem Hnd.
  destruct (stage_copies _ w Hsrc Hcw Hrem Hnd)
    as (w' & Hrun & Hh & Hc & Hframe & Hall).
  exists w'. split; [done|]. split; [done|]. split; [done|]. split; [|done].
  rewrite Forall_forall in Hall, Hrem |- *. intros c Hin.
  split; [by apply Hall|]. apply Hframe. by apply Hrem.
Qed.

(** X11: the calls stop at the first one that raises because its source
    is missing or its local path cannot be opened for writing: the calls
    before it have made their copies, every other file is as before (the
    local file of the failing call and those of the later calls are not
    created), and the later calls are not made. *)
Theorem staging_stops (pre post : list staging_call) (c : staging_call)
    (w : world) :
  Forall (fun c' => is_Some (call_copied decode encode fs (files w) c')) pre ->
  Forall (fun c' => can_write fs (call_local c') = true) pre ->
  Forall (fun c' => remote_file fs c' ∉ local_file fs <$> pre) (pre ++ [c]) ->
  NoDup (local_file fs <$> pre) ->
  (call_remote_mode c = mode_r \/ call_remote_mode c = mode_rb) ->
  (call_local_mode c = mode_w \/ call_local_mode c = mode_wb) ->
  (files w !! remote_file fs c = None \/ can_write fs (call_local c) = false) ->
  exists w' : world,
    stage decode encode fs (pre ++ c :: post) w = (None, w')
    /\ heap w' = heap w /\ console w' = console w
    /\ Forall (fun c' => files w' !! local_file fs c'
                         = call_copied decode encode fs (files w) c') pre
    /\ (forall p : string,
          p ∉ local_file fs <$> pre -> files w' !! p = files w !! p).
Proof.
  intros Hsrc Hcw Hrem Hnd Hrm Hwm Hfail.
  apply Forall_app in Hrem as [Hrem_pre [Hrem_c _]%Forall_cons].
  destruct (stage_copies pre w Hsrc Hcw Hrem_pre Hnd)
    as (w' & Hrun & Hh & Hco & Hframe & Hcop).
  exists w'. split; [|done].
  apply (stage_stops _ _ _ _ w'); [done|].
  destruct Hfail as [Hmiss|Hro].
  - apply save_local_missing; [done|].
    fold (remote_file fs c). by rewrite Hframe.
  - by apply save_local_unwritable.
Qed.

End StagingFacts.

(** ** Copying and staging on concrete files *)

Lemma save_local_binary_copy_witness :
  exists w' : world,
    save_local plain_decode plain_encode plain_fs
      (remote_train_mat_path "games")
      local_train_mat_path mode_rb mode_wb (World ∅ [] remote_inputs)
    = (Some tt, w')
    /\ files w' !! local_train_mat_path = Some "train"
    /\ (forall p : string, p <> local_train_mat_path ->
          files w' !! p = files (World ∅ [] remote_inputs) !! p)
    /\ heap w' = heap (World ∅ [] remote_inputs)
    /\ console w' = console (World ∅ [] remote_inputs).
Proof.
  apply (proj1 (save_local_binary_copy plain_decode plain_encode plain_fs
                  (remote_train_mat_path "games") local_train_mat_path
                  (World ∅ [] remote_inputs) "train" eq_refl)).
  reflexivity.
Defined.

Lemma save_local_text_copy_witness :
  exists w' : world,
    save_local plain_decode plain_encode plain_fs remote_vocab_file vocab_file
      mode_r mode_w (World ∅ [] remote_inputs)
    = (Some tt, w')
    /\ files w' !! vocab_file = Some (plain_encode "{}")
    /\ (files w' !! vocab_file = Some "{}" <-> plain_encode "{}" = "{}")
    /\ (forall p : string, p <> vocab_file ->
          files w' !! p = files (World ∅ [] remote_inputs) !! p)
    /\ heap w' = heap (World ∅ [] remote_inputs)
    /\ console w' = console (World ∅ [] remote_inputs).
Proof.
  apply (save_local_text_copy plain_decode plain_encode plain_fs
           remote_vocab_file vocab_file (World ∅ [] remote_inputs) "{}" "{}");
    reflexivity.
Defined.

Lemma save_local_unreadable_source_witness :
  save_local plain_decode plain_encode plain_fs (remote_train_mat_path "games")
    local_train_mat_path mode_rb mode_wb (World ∅ [] tokenizer_only)
  = (None, World ∅ [] tokenizer_only).
Proof.
  apply (save_local_unreadable_source plain_decode plain_encode plain_fs
           (remote_train_mat_path "games") local_train_mat_path mode_rb mode_wb
           (World ∅ [] tokenizer_only)).
  - right. reflexivity.
  - left. reflexivity.
Defined.

Lemma save_local_mode_mismatch_witness :
  exists w' : world,
    save_local plain_decode plain_encode plain_fs remote_vocab_file vocab_file
      mode_rb mode_w (World ∅ [] remote_inputs) = (None, w')
    /\ files w' !! vocab_file = Some ""
    /\ (forall p : string, p <> vocab_file ->
          files w' !! p = files (World ∅ [] remote_inputs) !! p)
    /\ heap w' = heap (World ∅ [] remote_inputs)
    /\ console w' = console (World ∅ [] remote_inputs).
Proof.
  apply (save_local_mode_mismatch plain_decode plain_encode plain_fs
           remote_vocab_file
           vocab_file mode_rb mode_w (World ∅ [] remote_inputs) "{}").
  - reflexivity.
  - left. split; reflexivity.
  - reflexivity.
Defined.

Lemma save_local_source_write_mode_witness :
  exists w' : world,
    save_local plain_decode plain_encode plain_fs remote_vocab_file vocab_file
      mode_w mode_w (World ∅ [] remote_inputs) = (None, w')
    /\ files w' !! remote_vocab_file = Some ""
    /\ (forall p : string, p <> remote_vocab_file ->
          files w' !! p = files (World ∅ [] remote_inputs) !! p)
    /\ heap w' = heap (World ∅ [] remote_inputs)
    /\ console w' = console (World ∅ [] remote_inputs).
Proof.
  apply (proj1 (save_local_source_write_mode plain_decode plain_encode
                  plain_fs remote_vocab_file
                  vocab_file mode_w mode_w (World ∅ [] remote_inputs)
                  (or_introl eq_refl))).
  reflexivity.
Defined.

Lemma save_local_save_remote_round_trip_witness :
  (_ ← save_local plain_decode plain_encode plain_fs
         (remote_train_mat_path "games")
         local_train_mat_path mode_rb mode_wb;
   save_remote plain_decode plain_encode plain_fs local_train_mat_path
     (remote_train_mat_path "games") mode_rb mode_wb) (World ∅ [] remote_inputs)
  = save_local plain_decode plain_encode plain_fs
      (remote_train_mat_path "games")
      local_train_mat_path mode_rb mode_wb (World ∅ [] remote_inputs).
Proof.
  apply (save_local_save_remote_round_trip plain_decode plain_encode plain_fs
           (remote_train_mat_path "games") local_train_mat_path
           (World ∅ [] remote_inputs) "train"); reflexivity.
Defined.

(** On read-only server directories the way back raises, although the
    way there returned. *)
Example round_trip_read_only_server :
  ((_ ← save_local plain_decode plain_encode read_only_server_fs
          (remote_train_mat_path "games") local_train_mat_path mode_rb mode_wb;
    save_remote plain_decode plain_encode read_only_server_fs
      local_train_mat_path (remote_train_mat_path "games") mode_rb mode_wb)
     (World ∅ [] remote_inputs)).1 = None
  /\ (save_local plain_decode plain_encode read_only_server_fs
        (remote_train_mat_path "games") local_train_mat_path mode_rb mode_wb
        (World ∅ [] remote_inputs)).1 = Some tt.
Proof.
  destruct (round_trip_read_only_remote plain_decode plain_encode
              read_only_server_fs (remote_train_mat_path "games")
              local_train_mat_path (World ∅ [] remote_inputs) "train"
              eq_refl eq_refl eq_refl) as [-> ->].
  by split.
Qed.

Lemma save_local_idempotent_witness :
  (_ ← save_local plain_decode plain_encode plain_fs
         (remote_train_mat_path "games")
         local_train_mat_path mode_rb mode_wb;
   save_local plain_decode plain_encode plain_fs (remote_train_mat_path "games")
     local_train_mat_path mode_rb mode_wb) (World ∅ [] remote_inputs)
  = save_local plain_decode plain_encode plain_fs
      (remote_train_mat_path "games")
      local_train_mat_path mode_rb mode_wb (World ∅ [] remote_inputs).
Proof.
  apply (save_local_idempotent plain_decode plain_encode plain_fs
           (remote_train_mat_path "games") local_train_mat_path
           (World ∅ [] remote_inputs) "train").
  reflexivity.
Defined.

Lemma staging_copies_witness :
  exists w' : world,
    stage plain_decode plain_encode plain_fs (main_save_local_calls "games" "1")
      (World ∅ [] remote_inputs) = (Some tt, w')
    /\ heap w' = heap (World ∅ [] remote_inputs)
    /\ console w' = console (World ∅ [] remote_inputs)
    /\ Forall (fun c =>
                 files w' !! local_file plain_fs c
                 = call_copied plain_decode plain_encode plain_fs
                     (files (World ∅ [] remote_inputs)) c
                 /\ files w' !! remote_file plain_fs c
                    = files (World ∅ [] remote_inputs) !! remote_file plain_fs c)
         (main_save_local_calls "games" "1")
    /\ (forall p : string,
          p ∉ local_file plain_fs <$> main_save_local_calls "games" "1" ->
          files w' !! p = files (World ∅ [] remote_inputs) !! p).
Proof.
  apply (staging_copies plain_decode plain_encode plain_fs
           (main_save_local_calls "games" "1") (World ∅ [] remote_inputs)).
  - repeat (apply Forall_cons; split; [by eexists|]). apply Forall_nil_2.
  - repeat (apply Forall_cons; split; [reflexivity|]). apply Forall_nil_2.
  - apply (bool_decide_unpack _). vm_compute. exact I.
  - apply (bool_decide_unpack _). vm_compute. exact I.
Defined.

Lemma staging_stops_witness :
  exists w' : world,
    stage plain_decode plain_encode plain_fs (main_save_local_calls "games" "1")
      (World ∅ [] tokenizer_only) = (None, w')
    /\ heap w' = heap (World ∅ [] tokenizer_only)
    /\ console w' = console (World ∅ [] tokenizer_only)
    /\ Forall (fun c' =>
                 files w' !! local_file plain_fs c'
                 = call_copied plain_decode plain_encode plain_fs
                     (files (World ∅ [] tokenizer_only)) c')
         [ Call remote_vocab_file vocab_file mode_r mode_w;
           Call remote_merges_file merges_file mode_r mode_w ]
    /\ (forall p : string,
          p ∉ local_file plain_fs
                <$> [ Call remote_vocab_file vocab_file mode_r mode_w;
                      Call remote_merges_file merges_file mode_r mode_w ] ->
          files w' !! p = files (World ∅ [] tokenizer_only) !! p).
Proof.
  apply (staging_stops plain_decode plain_encode plain_fs
           [ Call remote_vocab_file vocab_file mode_r mode_w;
             Call remote_merges_file merges_file mode_r mode_w ]
           [ Call (remote_test_mat_path "games") local_test_mat_path
               mode_rb mode_wb;
             Call remote_pretrained_weights_path local_pretrained_weights_path
               mode_rb mode_wb;
             Call (remote_pretrained_user_emb_path "games" "1")
               (local_pretrained_user_emb_path "1") mode_rb mode_wb;
             Call (remote_pretrained_item_emb_path "games" "1")
               (local_pretrained_item_emb_path "1") mode_rb mode_wb ]
           (Call (remote_train_mat_path "games") local_train_mat_path
              mode_rb mode_wb)
           (World ∅ [] tokenizer_only)).
  - repeat (apply Forall_cons; split; [by eexists|]). apply Forall_nil_2.
  - repeat (apply Forall_cons; split; [reflexivity|]). apply Forall_nil_2.
  - apply (bool_decide_unpack _). vm_compute. exact I.
  - apply (bool_decide_unpack _). vm_compute. exact I.
  - right. reflexivity.
  - right. reflexivity.
  - left. reflexivity.
Defined.

(** ** The batches of the loader *)

Lemma chunks_fuel_sizes {A} (fuel n : nat) (l : list A) :
  0 < n -> length l <= fuel ->
  Forall (fun c => 1 <= length c <= n) (chunks_fuel fuel n l)
  /\ (forall (i : nat) (c : list A),
        chunks_fuel fuel n l !! i = Some c ->
        S i < length (chunks_fuel fuel n l) -> length c = n)
  /\ length (chunks_fuel fuel n l) = (length l + n - 1) / n.
Proof.
  intros Hn. revert l. induction fuel as [|fuel IH]; intros l Hl.
  { destruct l; [|simpl in Hl; lia]. simpl.
    split; [constructor|]. split; [done|].
    symmetry. apply Nat.div_small. lia. }
  destruct l as [|x l].
  { simpl. split; [constructor|]. split; [done|].
    symmetry. apply Nat.div_small. lia. }
  cbn [chunks_fuel].
  assert (1 <= length (x :: l)) as Hpos by (simpl; lia).
  remember (x :: l) as xl eqn:Hxl. clear Hxl x l.
  assert (length (drop n xl) <= fuel) as Hdrop.
  { rewrite length_drop. lia. }
  destruct (IH _ Hdrop) as (Hall & Hfull & Hcount).
  split; [|split].
  - constructor; [|done]. rewrite length_take. lia.
  - intros [|i] c.
    + intros [= <-] Hlen. rewrite length_take.
      destruct (decide (n <= length xl)) as [|Hshort]; [lia|].
      rewrite drop_ge in Hlen by lia.
      destruct fuel; simpl in Hlen; lia.
    + intros Hc Hlen. apply (Hfull i c Hc). simpl in Hlen. lia.
  - rewrite length_cons, Hcount, length_drop.
    destruct (decide (n <= length xl)) as [Hlong|Hshort].
    + replace (length xl + n - 1) with (length xl - n + n - 1 + 1 * n) by lia.
      rewrite Nat.div_add by lia. lia.
    + replace (length xl - n) with 0 by lia.
      rewrite (Nat.div_small (0 + n - 1) n) by lia.
      apply (Nat.div_unique _ _ 1 (length xl - 1)); lia.
Qed.

Lemma concat_collate_gen {B} (f : sample -> list B) (g : batch -> tensor B)
    (cs : list (list sample)) :
  (forall c : list sample, g (collate_fn c) = f <$> c) ->
  concat (g <$> (collate_fn <$> cs)) = f <$> concat cs.
Proof.
  intros Hg. induction cs as [|c cs IH]; [done|].
  rewrite !fmap_cons. cbn [concat]. by rewrite IH, Hg, fmap_app.
Qed.

(** X12: the loader hands every user to the loop exactly once and in the
    order of the generator: the rows of the batches, put end to end, are
    the users' rows; every batch has between 1 and [batch_size] users with
    its four tensors aligned, every batch but the last has exactly
    [batch_size], and there are [ceil(len / batch_size)] batches. *)
Theorem DataLoader_partition (dataset : list sample) (batch_size : nat) :
  0 < batch_size ->
  concat (input_ids <$> DataLoader dataset batch_size) = sample_ids <$> dataset
  /\ concat (train_mat <$> DataLoader dataset batch_size) = sample_train <$> dataset
  /\ concat (target_mat <$> DataLoader dataset batch_size) = sample_target <$> dataset
  /\ concat (attention_mask <$> DataLoader dataset batch_size)
     = sample_mask <$> dataset
  /\ Forall (fun b => 1 <= length (input_ids b) <= batch_size
                      /\ length (train_mat b) = length (input_ids b)
                      /\ length (target_mat b) = length (input_ids b)
                      /\ length (attention_mask b) = length (input_ids b))
       (DataLoader dataset batch_size)
  /\ (forall (i : nat) (b : batch),
        DataLoader dataset batch_size !! i = Some b ->
        S i < length (DataLoader dataset batch_size) ->
        length (input_ids b) = batch_size)
  /\ length (DataLoader dataset batch_size)
     = (length dataset + batch_size - 1) / batch_size.
Proof.
  intros Hn.
  destruct (chunks_fuel_sizes (length dataset) batch_size dataset Hn (le_n _))
    as (Hall & Hfull & Hcount).
  pose proof (chunks_fuel_concat (length dataset) batch_size dataset Hn (le_n _))
    as Hcat.
  unfold DataLoader.
  split; [|split; [|split; [|split; [|split; [|split]]]]].
  - by rewrite (concat_collate_gen sample_ids input_ids), Hcat by done.
  - by rewrite (concat_collate_gen sample_train train_mat), Hcat by done.
  - by rewrite (concat_collate_gen sample_target target_mat), Hcat by done.
  - by rewrite (concat_collate_gen sample_mask attention_mask), Hcat by done.
  - apply Forall_fmap. eapply Forall_impl; [exact Hall|].
    intros c Hc. simpl. by rewrite !length_fmap.
  - intros i b. rewrite list_lookup_fmap, length_fmap.
    destruct (chunks_fuel (length dataset) batch_size dataset !! i) as [c|] eqn:Hc;
      [|done].
    simpl. intros [= <-] Hlen. simpl. rewrite length_fmap. by eapply Hfull.
  - by rewrite length_fmap.
Qed.

Lemma DataLoader_partition_witness :
  length (DataLoader three_users 2) = (length three_users + 2 - 1) / 2.
Proof.
  apply (DataLoader_partition three_users 2). lia.
Defined.

(** ** When a run returns *)

(** X13: lines 261-312 on the loader of an empty test generator: the
    loop body never runs, and the argument of the first [print] (line
    293) divides by [len(test_data_gen)] = 0, which raises before
    anything is printed; from the accumulators on, nothing is printed,
    nothing is written, and the world is as it was at line 261. *)
Theorem empty_generator_raises {loss : Type}
    (rec_model : tensor nat -> tensor Z -> tensor nat -> option (loss * tensor score))
    (fs : file_system) (path : string) (batch_size : nat) (start end_ : R)
    (w : world) :
  DataLoader [] batch_size = []
  /\ evaluate loss rec_model fs path (DataLoader [] batch_size)
       (length ([] : list sample)) start end_ w
     = (None, w).
Proof. split; reflexivity. Qed.

Lemma masked_scores_Some {loss : Type}
    (rec_model : tensor nat -> tensor Z -> tensor nat -> option (loss * tensor score))
    (b : batch) :
  is_Some (masked_scores loss rec_model b) <->
  exists (rec_loss : loss) (out : tensor score),
    rec_model (input_ids b) (target_mat b) (attention_mask b) = Some (rec_loss, out)
    /\ shape out = shape (train_mat b).
Proof.
  unfold masked_scores.
  destruct (rec_model _ _ _) as [[lo out]|]; simpl.
  - rewrite (index_put_shape NegInf), shape_tensor_gt0. split.
    + intros H. by exists lo, out.
    + by intros (? & ? & [= _ <-] & ?).
  - split; [by intros [? ?]|by intros (? & ? & ? & _)].
Qed.

(** X14: a run of lines 261-312 returns only if the divisor [len] is not
    zero, the results path could be opened for writing and, for every
    batch, the model returned a tensor whose rows are as many and as long
    as those of the train matrix. *)
Theorem evaluate_returns_only_if {loss : Type}
    (rec_model : tensor nat -> tensor Z -> tensor nat -> option (loss * tensor score))
    (fs : file_system)
    (path : string) (loader : list batch) (len : nat) (start end_ : R) (w : world) :
  is_Some (evaluate loss rec_model fs path loader len start end_ w).1 ->
  len <> 0
  /\ can_write fs path = true
  /\ Forall (fun b =>
       exists (rec_loss : loss) (out : tensor score),
         rec_model (input_ids b) (target_mat b) (attention_mask b)
         = Some (rec_loss, out)
         /\ shape out = shape (train_mat b)) loader.
Proof.
  intros [res Hres].
  destruct (evaluate loss rec_model fs path loader len start end_ w)
    as [r w'] eqn:Hrun. simpl in Hres. subst r.
  destruct (evaluate_Some _ _ _ _ _ _ _ _ _ _ Hrun)
    as (Hlen & Hcw & acc & w1 & Hloop & _).
  split; [done|]. split; [done|].
  destruct (eval_loop_Some _ _ _ _ _ _ Hloop) as (ts & Hall & _).
  apply Forall_forall. intros b Hb. apply masked_scores_Some.
  apply list_elem_of_lookup in Hb as [i Hi].
  destruct (Forall2_lookup_l _ _ _ _ _ Hall Hi) as (t & _ & Ht). by eexists.
Qed.

Lemma evaluate_returns_only_if_witness :
  3 <> 0
  /\ can_write plain_fs "results.txt" = true
  /\ Forall (fun b =>
       exists (rec_loss : unit) (out : tensor score),
         rowwise_model (input_ids b) (target_mat b) (attention_mask b)
         = Some (rec_loss, out)
         /\ shape out = shape (train_mat b)) two_batches.
Proof.
  apply (evaluate_returns_only_if rowwise_model plain_fs "results.txt"
           two_batches 3 0 1 empty_world).
  rewrite (evaluate_run rowwise_model plain_fs "results.txt" two_batches
             3 0 1 empty_world _ two_batches_sums two_batches_loop);
    [by eexists|lia|reflexivity].
Defined.

(** ** Masking again *)

Lemma index_put_row_idempotent {A} (v : A) (dst r : list A) (mask : list bool) :
  index_put_row v dst mask = Some r -> index_put_row v r mask = Some r.
Proof.
  revert mask r. induction dst as [|x dst IH]; intros [|b mask] r; simpl; try done.
  - by intros [= <-].
  - destruct (index_put_row v dst mask) as [r'|] eqn:E; simpl; [|done].
    intros [= <-]. simpl. rewrite (IH _ _ E). simpl. by destruct b.
Qed.

(** X15: the masking assignment is idempotent: on a tensor it has
    already been applied to, with the same mask, it returns and changes
    nothing. *)
Theorem masking_idempotent {A} (v : A) (dst t : tensor A) (mask : tensor bool) :
  index_put v dst mask = Some t -> index_put v t mask = Some t.
Proof.
  revert mask t. induction dst as [|d dst IH]; intros [|m mask] t; simpl; try done.
  - by intros [= <-].
  - destruct (index_put_row v d m) as [r|] eqn:Er; simpl; [|done].
    destruct (index_put v dst mask) as [t'|] eqn:Et; simpl; [|done].
    intros [= <-]. simpl.
    by rewrite (index_put_row_idempotent _ _ _ _ Er), (IH _ _ Et).
Qed.

Lemma masking_idempotent_witness :
  index_put NegInf scenario_masked (tensor_gt0 [[1; 0; 0; 0]%Z])
  = Some scenario_masked.
Proof.
  apply (masking_idempotent NegInf [scenario_scores] scenario_masked
           (tensor_gt0 [[1; 0; 0; 0]%Z])).
  reflexivity.
Defined.

(** ** The notification *)

(** X16: the script leaves the world exactly as [main] left it, whatever
    the mail server answers; it sends at most one mail, from
    1849334588@qq.com to esperanto1949@foxmail.com with the subject
    "Auto Email" and the text "Task [v519: evaluate cllm4rec] Finished",
    and only after [main] has returned and connecting, logging in and
    sending went through; and it returns only if that mail has been
    sent. *)
Theorem script_notifies_after_main {A} (main_call : M A) (smtp : smtp_answers)
    (p : process) :
  let mail := Email "1849334588@qq.com" "esperanto1949@foxmail.com"
                "Auto Email" "Task [v519: evaluate cllm4rec] Finished" in
  proc_world (script main_call smtp p).2 = (main_call (proc_world p)).2
  /\ (outbox (script main_call smtp p).2 = outbox p ++ [mail] <->
      is_Some (main_call (proc_world p)).1
      /\ connect_ok smtp = true /\ login_ok smtp = true
      /\ sendmail_ok smtp = true)
  /\ (outbox (script main_call smtp p).2 <> outbox p ++ [mail] ->
      outbox (script main_call smtp p).2 = outbox p)
  /\ ((script main_call smtp p).1 = Some tt ->
      outbox (script main_call smtp p).2 = outbox p ++ [mail]).
Proof.
  intros mail. change mail with notification. clear mail.
  unfold script.
  assert (outbox p <> outbox p ++ [notification]) as Hne.
  { intros Heq. apply (f_equal length) in Heq. rewrite length_app in Heq.
    simpl in Heq. lia. }
  destruct (main_call (proc_world p)) as [[a|] w'];
    destruct smtp as [[] [] [] []]; simpl;
    repeat split; try done; try (by intros (? & ? & ? & ?));
    try (by intros [? ?]); try (by eexists); try (by intros (? & _)).
Qed.
